(** * ZIMply: a shallow embedding of [zimply.py]

    The ZIM archive reader ([read_zero_terminated], [ClusterData], [ZIMFile])
    and the [BM25] ranker of [src/zimply/zimply.py], as Rocq functions, with
    the properties of the specification stated and settled over them.

    Conventions of the embedding:
    - a Python [int] is a [Z]; a [bytes] value is a [list byte]; a [str] is
      the list of its Unicode code points (Python compares, searches and
      concatenates [str] values code point by code point);
    - a call that may raise returns an [outcome]: the value, the exception,
      or [Hang] when the Python loop never ends;
    - a file object is a [stream]: its contents and its position. *)

From Stdlib Require Import ZArith Lia.
From Stdlib Require Import Strings.Byte.
From Stdlib Require Import Floats.PrimFloat Numbers.Cyclic.Int63.Uint63.
From stdpp Require Import base option list sorting strings gmap.

Local Open Scope Z_scope.

(** ** Outcomes of a Python call *)

Inductive exn : Type :=
  | struct_error        (* struct.error: the buffer does not have the size of the format *)
  | IOError (blob_index : Z)  (* "Blob index exceeds number of blobs available: %s" *)
  | OSError             (* seek to a negative position *)
  | IndexError          (* list index out of range *)
  | UnicodeDecodeError  (* raised by bytes.decode under errors="strict" only *)
  | LZMAError           (* the stream is not LZMA data *)
  | AttributeError      (* an attribute that was never assigned *)
  | KeyError            (* dict lookup of a missing key *)
  | ZeroDivisionError
  | ValueError          (* math domain error; read length below -1 *)
  | RecursionError.     (* the interpreter's recursion limit was reached *)

Inductive outcome (A : Type) : Type :=
  | Ok (a : A)
  | Raise (e : exn)
  | Hang.               (* the loop never ends *)

Arguments Ok {A} a.
Arguments Raise {A} e.
Arguments Hang {A}.

#[global] Instance outcome_ret : MRet outcome := fun A a => Ok a.
#[global] Instance outcome_bind : MBind outcome := fun A B f m =>
  match m with
  | Ok a => f a
  | Raise e => Raise e
  | Hang => Hang
  end.

(** [for x in l: body], where the body may raise: the results in order. *)
Fixpoint for_each {A B : Type} (body : A → outcome B) (l : list A) : outcome (list B) :=
  match l with
  | [] => Ok []
  | x :: l' => y ← body x; ys ← for_each body l'; Ok (y :: ys)
  end.

(** [l[i]] on a Python list: a negative index counts from the end. *)
Definition getitem {A : Type} (l : list A) (i : Z) : outcome A :=
  let n := Z.of_nat (length l) in
  if (i <? - n) || (n <=? i) then Raise IndexError
  else match l !! Z.to_nat (if i <? 0 then n + i else i) with
       | Some x => Ok x
       | None => Raise IndexError
       end.

(** ** Bytes and little-endian integers ([struct]) *)

#[global] Instance byte_eq_decision : EqDecision byte := Byte.byte_eq_dec.

Definition byte_val (b : byte) : Z := Z.of_N (Byte.to_N b).

Definition byte_of_Z (z : Z) : byte :=
  match Byte.of_N (Z.to_N (z mod 256)) with
  | Some b => b
  | None => x00
  end.

(** ZERO = pack("B", 0) *)
Definition ZERO : list byte := [x00].

(** int.from_bytes(bs, "little") *)
Definition int_from_le (bs : list byte) : Z :=
  foldr (fun b acc => byte_val b + 256 * acc) 0 bs.

(** unpack("<" + fmt, buffer)[0] for one unsigned field of [width] bytes:
    the buffer must have exactly the size of the format. *)
Definition unpack_uint (width : nat) (buffer : list byte) : outcome Z :=
  if decide (length buffer = width) then Ok (int_from_le buffer)
  else Raise struct_error.

(** pack("<" + fmt, z) for one unsigned field of [width] bytes. *)
Fixpoint pack_uint (width : nat) (z : Z) : list byte :=
  match width with
  | O => []
  | S w => byte_of_Z z :: pack_uint w (z / 256)
  end.

(** ** File objects *)

Record stream : Type := Stream { data : list byte; pos : Z }.

(** file.seek(offset): absolute; a negative offset is refused. *)
Definition seek (f : stream) (offset : Z) : outcome stream :=
  if offset <? 0 then Raise OSError else Ok (Stream (data f) offset).

(** buffer.seek(offset, 1): relative to the current position. A file
    refuses a position before its start; a BytesIO ([in_memory]) stops
    there. *)
Definition seek_cur (in_memory : bool) (f : stream) (offset : Z) : outcome stream :=
  if in_memory then Ok (Stream (data f) (Z.max 0 (pos f + offset)))
  else seek f (pos f + offset).

(** What is left of the file from the current position on: nothing when
    the position is at or past the end. *)
Definition remaining (f : stream) : list byte :=
  if Z.of_nat (length (data f)) <=? pos f then []
  else drop (Z.to_nat (pos f)) (data f).

(** file.read(size) for [size >= -1]: at most [size] bytes from the current
    position, all the remaining bytes for -1. *)
Definition read (f : stream) (size : Z) : list byte * stream :=
  let rest := remaining f in
  let got := if (size <? 0) || (Z.of_nat (length rest) <=? size) then rest
             else take (Z.to_nat size) rest in
  (got, Stream (data f) (pos f + Z.of_nat (length got))).

(** buffer.read(size) for any [size]: the file (a BufferedReader) refuses a
    size below -1, a BytesIO ([in_memory]) takes every negative size for
    -1. *)
Definition read_size (in_memory : bool) (f : stream) (size : Z) : outcome (list byte) :=
  if negb in_memory && (size <? -1) then Raise ValueError
  else Ok (fst (read f size)).

(** ** Text: [str] and [bytes.decode] *)

Abbreviation str := (list Z) (only parsing).

(** The text of a literal, for writing examples. *)
Definition str_of_bytes (bs : list byte) : str := byte_val <$> bs.

(** A codec decodes one character at a time: [decode_char c b rest] looks at
    the byte [b] and the bytes after it and answers [(Some cp, n)] when [b]
    and the next [n] bytes encode the code point [cp], and [(None, n)] when
    [b] and the next [n] bytes are a malformed sequence. *)
Record codec : Type := Codec { decode_char : byte → list byte → option Z * nat }.

Inductive error_handler : Type := strict | ignore | replace.

(** U+FFFD, what errors="replace" puts in place of a malformed sequence. *)
Definition REPLACEMENT_CHARACTER : Z := 0xFFFD.

(** bytes.decode(encoding, errors), with [skip] bytes still belonging to the
    sequence decoded last. *)
Fixpoint decode_from (c : codec) (errors : error_handler) (skip : nat)
    (bs : list byte) : outcome str :=
  match bs with
  | [] => Ok []
  | b :: rest =>
    match skip with
    | S k => decode_from c errors k rest
    | O =>
      match decode_char c b rest with
      | (Some cp, n) => tail ← decode_from c errors n rest; Ok (cp :: tail)
      | (None, n) =>
        match errors with
        | strict => Raise UnicodeDecodeError
        | ignore => decode_from c errors n rest
        | replace =>
            tail ← decode_from c errors n rest; Ok (REPLACEMENT_CHARACTER :: tail)
        end
      end
    end
  end.

Definition bytes_decode (c : codec) (errors : error_handler) (bs : list byte) : outcome str :=
  decode_from c errors 0 bs.

(** The sequences of a byte string as the codec sees them, in order:
    [Some cp] for a well-formed one, [None] for a malformed one. *)
Fixpoint sequences_from (c : codec) (skip : nat) (bs : list byte) : list (option Z) :=
  match bs with
  | [] => []
  | b :: rest =>
    match skip with
    | S k => sequences_from c k rest
    | O => let '(r, n) := decode_char c b rest in r :: sequences_from c n rest
    end
  end.

Definition sequences (c : codec) (bs : list byte) : list (option Z) :=
  sequences_from c 0 bs.

(** *** The codecs "ascii", "latin-1" and "utf-8" *)

Definition codec_ascii : codec :=
  Codec (fun b _ => if byte_val b <? 0x80 then (Some (byte_val b), 0%nat) else (None, 0%nat)).

Definition codec_latin_1 : codec := Codec (fun b _ => (Some (byte_val b), 0%nat)).

Definition in_range (lo hi : Z) (b : byte) : bool :=
  (lo <=? byte_val b) && (byte_val b <=? hi).

Definition continuation (b : byte) : Z := byte_val b - 0x80.

(** CPython's UTF-8 decoder: shortest forms only, no surrogates, nothing above
    U+10FFFF; a malformed sequence ends before the first byte that cannot
    continue it. *)
Definition utf_8_decode_char (b : byte) (rest : list byte) : option Z * nat :=
  let v := byte_val b in
  if v <? 0x80 then (Some v, 0%nat)
  else if v <? 0xC2 then (None, 0%nat)
  else if v <? 0xE0 then
    match rest with
    | c1 :: _ =>
        if in_range 0x80 0xBF c1
        then (Some ((v - 0xC0) * 64 + continuation c1), 1%nat)
        else (None, 0%nat)
    | [] => (None, 0%nat)
    end
  else if v <? 0xF0 then
    let lo := if v =? 0xE0 then 0xA0 else 0x80 in
    let hi := if v =? 0xED then 0x9F else 0xBF in
    match rest with
    | c1 :: rest1 =>
        if in_range lo hi c1 then
          match rest1 with
          | c2 :: _ =>
              if in_range 0x80 0xBF c2
              then (Some (((v - 0xE0) * 64 + continuation c1) * 64 + continuation c2), 2%nat)
              else (None, 1%nat)
          | [] => (None, 1%nat)
          end
        else (None, 0%nat)
    | [] => (None, 0%nat)
    end
  else if v <? 0xF5 then
    let lo := if v =? 0xF0 then 0x90 else 0x80 in
    let hi := if v =? 0xF4 then 0x8F else 0xBF in
    match rest with
    | c1 :: rest1 =>
        if in_range lo hi c1 then
          match rest1 with
          | c2 :: rest2 =>
              if in_range 0x80 0xBF c2 then
                match rest2 with
                | c3 :: _ =>
                    if in_range 0x80 0xBF c3
                    then (Some ((((v - 0xF0) * 64 + continuation c1) * 64
                                 + continuation c2) * 64 + continuation c3), 3%nat)
                    else (None, 2%nat)
                | [] => (None, 2%nat)
                end
              else (None, 1%nat)
          | [] => (None, 1%nat)
          end
        else (None, 0%nat)
    | [] => (None, 0%nat)
    end
  else (None, 0%nat).

Definition codec_utf_8 : codec := Codec utf_8_decode_char.

(** ** [read_zero_terminated] *)

(** iter(partial(file.read, 1), ZERO) joined: the bytes before the first
    ZERO of what is left of the file. At the end of the file [file.read(1)]
    returns [b""], which is not ZERO, so without a ZERO the iterator never
    stops: [None]. *)
Fixpoint read_until_ZERO (rest : list byte) : option (list byte) :=
  match rest with
  | [] => None
  | b :: rest' =>
      if decide ([b] = ZERO) then Some []
      else field ← read_until_ZERO rest'; Some (b :: field)
  end.

Definition read_zero_terminated (file : stream) (encoding : codec) : outcome (str * stream) :=
  match read_until_ZERO (remaining file) with
  | None => Hang
  | Some field =>
      text ← bytes_decode encoding ignore field;
      Ok (text, Stream (data file) (pos file + Z.of_nat (length field) + 1))
  end.

(** ** The structure of a ZIM file *)

(** The format characters of [struct] used by the file format. *)
Inductive format : Type := fmt_B | fmt_H | fmt_I | fmt_L | fmt_Q | fmt_c.

Definition format_size (fmt : format) : nat :=
  match fmt with
  | fmt_B | fmt_c => 1
  | fmt_H => 2
  | fmt_I | fmt_L => 4
  | fmt_Q => 8
  end.

(** Field = namedtuple("Field", ["format", "field_name"]) *)
Record Field : Type := mkField { field_format : format; field_name : string }.

Definition HEADER : list Field :=
  [ mkField fmt_I "magicNumber"; mkField fmt_I "version";
    mkField fmt_Q "uuid_low"; mkField fmt_Q "uuid_high";
    mkField fmt_I "articleCount"; mkField fmt_I "clusterCount";
    mkField fmt_Q "urlPtrPos"; mkField fmt_Q "titlePtrPos";
    mkField fmt_Q "clusterPtrPos"; mkField fmt_Q "mimeListPos";
    mkField fmt_I "mainPage"; mkField fmt_I "layoutPage";
    mkField fmt_Q "checksumPos" ].

Definition ARTICLE_ENTRY : list Field :=
  [ mkField fmt_H "mimetype"; mkField fmt_B "parameterLen";
    mkField fmt_c "namespace"; mkField fmt_I "revision";
    mkField fmt_I "clusterNumber"; mkField fmt_I "blobNumber" ].

Definition REDIRECT_ENTRY : list Field :=
  [ mkField fmt_H "mimetype"; mkField fmt_B "parameterLen";
    mkField fmt_c "namespace"; mkField fmt_I "revision";
    mkField fmt_I "redirectIndex" ].

Definition CLUSTER : list Field := [ mkField fmt_B "compressionType" ].

(** A value read by [struct]: an integer, or for the format [c] one byte
    kept as [bytes]. *)
Inductive field_value : Type :=
  | int_value (z : Z)
  | bytes_value (bs : list byte).

(** Struct("<" + formats).size *)
Definition Struct_size (structure : list Field) : nat :=
  foldr (fun fld n => (format_size (field_format fld) + n)%nat) 0%nat structure.

(** Struct("<" + formats).unpack_from(buffer): little-endian, no padding;
    the values in the order of the fields. *)
Fixpoint Struct_unpack_from (structure : list Field) (buffer : list byte)
    : outcome (list field_value) :=
  match structure with
  | [] => Ok []
  | fld :: structure' =>
      let n := format_size (field_format fld) in
      if decide (length buffer < n)%nat then Raise struct_error
      else
        let v := match field_format fld with
                 | fmt_c => bytes_value (take n buffer)
                 | _ => int_value (int_from_le (take n buffer))
                 end in
        vs ← Struct_unpack_from structure' (drop n buffer);
        Ok (v :: vs)
  end.

(** Block.unpack. The source zips the values with the field names into a
    dict; here the values stay in the order of the structure and each block
    names them by position. *)
Definition Block_unpack (structure : list Field) (buffer : list byte)
    : outcome (list field_value) :=
  Struct_unpack_from structure buffer.

(** Block._unpack_from_file *)
Definition Block_unpack_from_file (structure : list Field) (file : stream)
    (offset : option Z) : outcome (list field_value * stream) :=
  file ← match offset with
         | Some o => seek file o
         | None => Ok file
         end;
  let '(buffer, file) := read file (Z.of_nat (Struct_size structure)) in
  values ← Block_unpack structure buffer;
  Ok (values, file).

Record HeaderFields : Type := mkHeader {
  magicNumber : Z; version : Z; uuid_low : Z; uuid_high : Z;
  articleCount : Z; clusterCount : Z;
  urlPtrPos : Z; titlePtrPos : Z; clusterPtrPos : Z; mimeListPos : Z;
  mainPage : Z; layoutPage : Z; checksumPos : Z }.

(** HeaderBlock(encoding).unpack_from_file(file) *)
Definition HeaderBlock_unpack_from_file (file : stream) : outcome HeaderFields :=
  '(values, _) ← Block_unpack_from_file HEADER file None;
  match values with
  | [ int_value magic; int_value ver; int_value lo; int_value hi;
      int_value articles; int_value clusters;
      int_value urlPtr; int_value titlePtr; int_value clusterPtr; int_value mimeList;
      int_value main; int_value layout; int_value checksum ] =>
      Ok (mkHeader magic ver lo hi articles clusters urlPtr titlePtr clusterPtr
                   mimeList main layout checksum)
  | _ => Raise struct_error
  end.

(** The loop of MimeTypeListBlock.unpack_from_file: every round reads one
    zero-terminated field, so it ends within as many rounds as the file has
    bytes left, or [read_zero_terminated] hangs at the end of the file
    (lemma [mimetypes_loop_rounds]). *)
Fixpoint mimetypes_loop (rounds : nat) (file : stream) (encoding : codec) : outcome (list str) :=
  match rounds with
  | O => Hang
  | S rounds' =>
      '(s, file) ← read_zero_terminated file encoding;
      if decide (s = []) then Ok []
      else mimetypes ← mimetypes_loop rounds' file encoding; Ok (s :: mimetypes)
  end.

(** MimeTypeListBlock(encoding).unpack_from_file(file, offset) *)
Definition MimeTypeListBlock_unpack_from_file (file : stream) (encoding : codec)
    (offset : option Z) : outcome (list str) :=
  file ← match offset with
         | Some o => seek file o
         | None => Ok file
         end;
  mimetypes_loop (S (length (data file))) file encoding.

(** *** Directory entries *)

(** What an Article Entry has and a Redirect Entry has not, and the reverse:
    the keys [clusterNumber] and [blobNumber], or the key [redirectIndex]. *)
Inductive entry_kind : Type :=
  | ArticleFields (clusterNumber blobNumber : Z)
  | RedirectFields (redirectIndex : Z).

(** The dict of a directory entry. [index] is set by
    [read_directory_entry_by_index] only. *)
Record Entry : Type := mkEntry {
  mimetype : Z;
  parameterLen : Z;
  namespace : str;
  revision : Z;
  kind : entry_kind;
  url : str;
  title : str;
  index : option Z }.

(** DirectoryBlock.unpack_from_file, for the structure ARTICLE_ENTRY or
    REDIRECT_ENTRY. *)
Definition DirectoryBlock_unpack_from_file (structure : list Field) (encoding : codec)
    (file : stream) (offset : option Z) : outcome Entry :=
  '(field_values, file) ← Block_unpack_from_file structure file offset;
  '(url, file) ← read_zero_terminated file encoding;
  '(title, file) ← read_zero_terminated file encoding;
  match field_values with
  | [ int_value mimetype; int_value parameterLen; bytes_value namespace;
      int_value revision; int_value clusterNumber; int_value blobNumber ] =>
      namespace ← bytes_decode encoding ignore namespace;
      Ok (mkEntry mimetype parameterLen namespace revision
                  (ArticleFields clusterNumber blobNumber) url title None)
  | [ int_value mimetype; int_value parameterLen; bytes_value namespace;
      int_value revision; int_value redirectIndex ] =>
      namespace ← bytes_decode encoding ignore namespace;
      Ok (mkEntry mimetype parameterLen namespace revision
                  (RedirectFields redirectIndex) url title None)
  | _ => Raise KeyError
  end.

(** ** Support functions *)

(** full_url(namespace, url) = str(namespace) + '/' + str(url) *)
Definition full_url (namespace url : str) : str := namespace ++ [0x2F] ++ url.

(** [a < b] on [str]: lexicographic on the code points. *)
Fixpoint str_ltb (a b : str) : bool :=
  match a, b with
  | _, [] => false
  | [], _ :: _ => true
  | x :: a', y :: b' =>
      if x <? y then true else if y <? x then false else str_ltb a' b'
  end.

(** ** The classes [ClusterData] and [ZIMFile]

    Every method below positions the file with an absolute [seek] before its
    first read, so the position an earlier call left behind is never
    observed: the objects hold the contents of the file, and each method
    opens its own [stream] on them. The archive is read-only, so the
    [lru_cache] around [ClusterData] returns what a fresh construction
    returns and is left out. *)

Section Reader.

(** What [lzma.LZMADecompressor] makes of the bytes it is fed (the file from
    the byte after compressionType on, in chunks of [chunk_size] bytes until
    it reports [eof]): the decompressed data, [LZMAError], or [Hang] when the
    file ends before the stream does (the loop then reads [b""] for ever). *)
Variable lzma_decompress : list byte → outcome (list byte).

(** [str.lower] of the interpreter's Unicode tables. *)
Variable str_lower : str → str.

Record ClusterData : Type := mkClusterData {
  cd_file : list byte;
  cd_offset : Z;
  compressed : bool;
  buffer : option (list byte);   (* assigned by _decompress when compressed *)
  _offsets : list Z }.

(** ClusterData._decompress: the value of [self.buffer]. *)
Definition _decompress (file : list byte) (offset : Z) (compressed : bool)
    : outcome (option (list byte)) :=
  if compressed then
    f ← seek (Stream file 0) (offset + 1);
    uncompressed ← lzma_decompress (fst (read f (-1)));
    Ok (Some uncompressed)
  else Ok None.

(** ClusterData._source_buffer *)
Definition _source_buffer (self : ClusterData) : outcome stream :=
  if compressed self then
    match buffer self with
    | Some b => seek (Stream b 0) 0
    | None => Raise AttributeError
    end
  else seek (Stream (cd_file self) 0) (cd_offset self + 1).

(** for idx in range(n): self._offsets.append(unpack("<I", buffer.read(4))[0]) *)
Fixpoint read_more_offsets (n : nat) (buffer : stream) : outcome (list Z) :=
  match n with
  | O => Ok []
  | S n' =>
      let '(b, buffer) := read buffer 4 in
      offset ← unpack_uint 4 b;
      offsets ← read_more_offsets n' buffer;
      Ok (offset :: offsets)
  end.

(** ClusterData._read_offsets: the list [self._offsets] it builds.
    [int(offset0 / 4)] divides floats, exactly for an unsigned 32-bit
    [offset0], and truncates. *)
Definition _read_offsets (self : ClusterData) : outcome (list Z) :=
  buffer ← _source_buffer self;
  let '(b, buffer) := read buffer 4 in
  offset0 ← unpack_uint 4 b;
  let number_of_blobs := offset0 / 4 in
  offsets ← read_more_offsets (Z.to_nat (number_of_blobs - 1)) buffer;
  Ok (offset0 :: offsets).

(** ClusterData.__init__ *)
Definition ClusterData_init (file : list byte) (offset : Z) (encoding : codec)
    : outcome ClusterData :=
  '(cluster_info, _) ← Block_unpack_from_file CLUSTER (Stream file 0) (Some offset);
  match cluster_info with
  | [ int_value compressionType ] =>
      let compressed := bool_decide (compressionType = 4) in
      buffer ← _decompress file offset compressed;
      let self := mkClusterData file offset compressed buffer [] in
      offsets ← _read_offsets self;
      Ok (mkClusterData file offset compressed buffer offsets)
  | _ => Raise KeyError
  end.

(** ClusterData.read_blob *)
Definition read_blob (self : ClusterData) (blob_index : Z) : outcome (list byte) :=
  if Z.of_nat (length (_offsets self)) - 1 <=? blob_index
  then Raise (IOError blob_index)
  else
    buffer ← _source_buffer self;
    next ← getitem (_offsets self) (blob_index + 1);
    this ← getitem (_offsets self) blob_index;
    let blob_size := next - this in
    buffer ← seek_cur (compressed self) buffer this;
    read_size (compressed self) buffer blob_size.

(** ClusterData(file, offset, encoding).read_blob(blob_index) *)
Definition cluster_read_blob (file : list byte) (offset : Z) (encoding : codec)
    (blob_index : Z) : outcome (list byte) :=
  cluster_data ← ClusterData_init file offset encoding;
  read_blob cluster_data blob_index.

(** The body of a cluster, given its compressionType byte and the bytes
    [rest] that follow it in the file: [rest] itself, or what the LZMA2
    stream in [rest] decompresses to. *)
Definition cluster_body_of (compressionType : byte) (rest : list byte) : outcome (list byte) :=
  if bool_decide (byte_val compressionType = 4) then lzma_decompress rest else Ok rest.

(** Article = namedtuple("Article", ["data", "namespace", "mimetype"]);
    [data] is [None] and [mimetype] is the redirect index for a redirect
    that is not followed. *)
Inductive mimetype_or_redirect : Type :=
  | mimetype_name (s : str)
  | redirect_target (redirectIndex : Z).

Record Article : Type := mkArticle {
  article_data : option (list byte);
  article_namespace : str;
  article_mimetype : mimetype_or_redirect }.

Record ZIMFile : Type := mkZIMFile {
  _enc : codec;
  file : list byte;
  header_fields : HeaderFields;
  mimetype_list : list str }.

(** ZIMFile.__init__, on the contents of the file [filename]. *)
Definition ZIMFile_init (contents : list byte) (encoding : codec) : outcome ZIMFile :=
  header ← HeaderBlock_unpack_from_file (Stream contents 0);
  mimetypes ← MimeTypeListBlock_unpack_from_file (Stream contents 0) encoding
                 (Some (mimeListPos header));
  Ok (mkZIMFile encoding contents header mimetypes).

(** ZIMFile._read_offset, with the header field and the width of the format
    in place of their names. *)
Definition _read_offset (self : ZIMFile) (index : Z) (field : HeaderFields → Z)
    (length : nat) : outcome Z :=
  f ← seek (Stream (file self) 0) (field (header_fields self) + Z.of_nat length * index);
  unpack_uint length (fst (read f (Z.of_nat length))).

Definition _read_url_offset (self : ZIMFile) (index : Z) : outcome Z :=
  _read_offset self index urlPtrPos 8.

Definition _read_title_offset (self : ZIMFile) (index : Z) : outcome Z :=
  _read_offset self index titlePtrPos 4.

Definition _read_cluster_offset (self : ZIMFile) (index : Z) : outcome Z :=
  _read_offset self index clusterPtrPos 8.

(** ZIMFile._read_directory_entry *)
Definition _read_directory_entry (self : ZIMFile) (offset : Z) : outcome Entry :=
  f ← seek (Stream (file self) 0) offset;
  let '(b, f) := read f 2 in
  fields0 ← unpack_uint 2 b;
  let directory_block := if fields0 =? 0xffff then REDIRECT_ENTRY else ARTICLE_ENTRY in
  DirectoryBlock_unpack_from_file directory_block (_enc self) f (Some offset).

(** ZIMFile.read_directory_entry_by_index *)
Definition read_directory_entry_by_index (self : ZIMFile) (index : Z) : outcome Entry :=
  offset ← _read_url_offset self index;
  directory_values ← _read_directory_entry self offset;
  Ok (mkEntry (mimetype directory_values) (parameterLen directory_values)
              (namespace directory_values) (revision directory_values)
              (kind directory_values) (url directory_values)
              (title directory_values) (Some index)).

(** ZIMFile._read_blob *)
Definition _read_blob (self : ZIMFile) (cluster_index blob_index : Z) : outcome (list byte) :=
  offset ← _read_cluster_offset self cluster_index;
  cluster_data ← ClusterData_init (file self) offset (_enc self);
  read_blob cluster_data blob_index.

(** ZIMFile._get_article_by_index. The method calls itself on a redirect;
    [depth] is the number of nested calls the interpreter still allows, and
    [RecursionError] is what it raises when there is none left. *)
Fixpoint _get_article_by_index (depth : nat) (self : ZIMFile) (index : Z)
    (follow_redirect : bool) : outcome Article :=
  match depth with
  | O => Raise RecursionError
  | S depth' =>
      entry ← read_directory_entry_by_index self index;
      match kind entry with
      | RedirectFields redirectIndex =>
          if follow_redirect
          then _get_article_by_index depth' self redirectIndex follow_redirect
          else Ok (mkArticle None (namespace entry) (redirect_target redirectIndex))
      | ArticleFields clusterNumber blobNumber =>
          data ← _read_blob self clusterNumber blobNumber;
          mime ← getitem (mimetype_list self) (mimetype entry);
          Ok (mkArticle (Some data) (namespace entry) (mimetype_name mime))
      end
  end.

(** The directory entry at index [i] is a Redirect Entry, to index [j]. *)
Definition redirects (self : ZIMFile) (i j : Z) : Prop :=
  ∃ entry, read_directory_entry_by_index self i = Ok entry
           ∧ kind entry = RedirectFields j.

(** The whole directory: the entries at the indices 0 to articleCount - 1. *)
Definition read_directory (self : ZIMFile) : outcome (list Entry) :=
  for_each (read_directory_entry_by_index self)
           (seqZ 0 (articleCount (header_fields self))).

(** The key of an entry in the order of the directory: its full url. *)
Definition entry_key (entry : Entry) : str := full_url (namespace entry) (url entry).

(** What the binary search for [title_] has learnt about a directory of
    [n] entries when its bounds are [front] and [end_]: the keys before
    [front] are below [title_], the keys after [end_] are above it. *)
Definition search_bounds (entries : list Entry) (n : Z) (title_ : str)
    (front end_ : Z) : Prop :=
  0 ≤ front ∧ end_ ≤ n
  ∧ (∀ j entry, Z.of_nat j < front → entries !! j = Some entry →
       str_ltb (entry_key entry) title_ = true)
  ∧ (∀ j entry, end_ < Z.of_nat j → entries !! j = Some entry →
       str_ltb title_ (entry_key entry) = true).

(** ZIMFile.__len__ *)
Definition len (self : ZIMFile) : Z := articleCount (header_fields self).

(** The linear branch of ZIMFile._get_entry_by_url:
    for idx in range(articleCount). *)
Fixpoint linear_search (self : ZIMFile) (namespace_ url_ : str) (indices : list Z)
    : outcome (option Entry * option Z) :=
  match indices with
  | [] => Ok (None, None)
  | idx :: indices' =>
      entry ← read_directory_entry_by_index self idx;
      if decide (url entry = url_ ∧ namespace entry = namespace_)
      then Ok (Some entry, Some idx)
      else linear_search self namespace_ url_ indices'
  end.

(** The while loop of the other branch, with the indices it hands to
    [read_directory_entry_by_index], in order: what the loop returns is
    (the probed indices, (found, middle)). Every round that reads an entry
    without finding the title shrinks [end - front] by one at least, so
    [rounds] = [end - front + 1] rounds are enough (lemma
    [binary_search_rounds]). [floor((front + end) / 2)] divides floats,
    exactly for sums of unsigned 32-bit values. *)
Fixpoint binary_search_loop (self : ZIMFile) (title_ : str) (rounds : nat)
    (front end_ middle : Z) : list Z * outcome (bool * Z) :=
  match rounds with
  | O => ([], Ok (false, middle))
  | S rounds' =>
      if bool_decide (front ≤ end_) then
        let middle := (front + end_) / 2 in
        match read_directory_entry_by_index self middle with
        | Ok entry =>
            let found_title := full_url (namespace entry) (url entry) in
            if decide (found_title = title_) then ([middle], Ok (true, middle))
            else
              let '(probes, r) :=
                if str_ltb found_title title_
                then binary_search_loop self title_ rounds' (middle + 1) end_ middle
                else binary_search_loop self title_ rounds' front (middle - 1) middle in
              (middle :: probes, r)
        | Raise e => ([middle], Raise e)
        | Hang => ([middle], Hang)
        end
      else ([], Ok (false, middle))
  end.

(** The indices [_get_entry_by_url(namespace, url)] probes in its loop. *)
Definition binary_search_probes (self : ZIMFile) (namespace_ url_ : str) : list Z :=
  fst (binary_search_loop self (full_url namespace_ url_)
         (Z.to_nat (len self - 0 + 1)) 0 (len self) 0).

(** ZIMFile._get_entry_by_url *)
Definition _get_entry_by_url (self : ZIMFile) (namespace_ url_ : str) (linear : bool)
    : outcome (option Entry * option Z) :=
  if linear then
    linear_search self namespace_ url_ (seqZ 0 (articleCount (header_fields self)))
  else
    let front := 0 in
    let end_ := len self in
    let title_ := full_url namespace_ url_ in
    '(found, middle) ← snd (binary_search_loop self title_
                              (Z.to_nat (end_ - front + 1)) front end_ 0);
    if found : bool then
      entry ← read_directory_entry_by_index self middle;
      Ok (Some entry, Some middle)
    else Ok (None, None).

(** [if idx:] for an index or None: None and 0 are false. *)
Definition truth (idx : option Z) : bool :=
  match idx with
  | Some i => negb (i =? 0)
  | None => false
  end.

(** ZIMFile.get_article_by_url *)
Definition get_article_by_url (depth : nat) (self : ZIMFile) (namespace_ url_ : str)
    (follow_redirect : bool) : outcome (option Article) :=
  '(entry, idx) ← _get_entry_by_url self namespace_ url_ false;
  if truth idx then
    match idx with
    | Some i =>
        article ← _get_article_by_index depth self i follow_redirect; Ok (Some article)
    | None => Ok None   (* not reached: None is false *)
    end
  else Ok None.

(** ZIMFile.get_main_page *)
Definition get_main_page (depth : nat) (self : ZIMFile) : outcome Article :=
  _get_article_by_index depth self (mainPage (header_fields self)) true.

(** The loop of ZIMFile.metadata over the indices still to visit, with the
    dict built so far. *)
Fixpoint metadata_loop (depth : nat) (self : ZIMFile) (indices : list Z)
    (metadata : gmap str (option (list byte))) : outcome (gmap str (option (list byte))) :=
  match indices with
  | [] => Ok metadata
  | i :: indices' =>
      entry ← read_directory_entry_by_index self i;
      if decide (namespace entry = [0x4D]) then
        let m_name := str_lower (url entry) in
        article ← _get_article_by_index depth self i true;
        metadata_loop depth self indices' (<[m_name := article_data article]> metadata)
      else Ok metadata
  end.

(** ZIMFile.metadata: for i in range(articleCount - 1, -1, -1). *)
Definition metadata (depth : nat) (self : ZIMFile) : outcome (gmap str (option (list byte))) :=
  metadata_loop depth self (reverse (seqZ 0 (articleCount (header_fields self)))) ∅.

End Reader.

(** ** [str.find], [str.count] *)

(** s.startswith(sub) *)
Fixpoint startswith (s sub : str) : bool :=
  match sub, s with
  | [], _ => true
  | _ :: _, [] => false
  | x :: sub', y :: s' => bool_decide (x = y) && startswith s' sub'
  end.

(** [s.find(sub)] for the part [s] of the string that starts at index [i]:
    the lowest index where [sub] starts, or -1. *)
Fixpoint find_from (i : Z) (s sub : str) : Z :=
  if startswith s sub then i
  else match s with
       | [] => -1
       | _ :: s' => find_from (i + 1) s' sub
       end.

Definition str_find (s sub : str) : Z := find_from 0 s sub.

(** The occurrences [s.count(sub)] counts for a non-empty [sub]: from left
    to right, none overlapping the one before; [skip] characters of [s]
    still belong to the occurrence counted last. *)
Fixpoint count_from (skip : nat) (s sub : str) : Z :=
  match s with
  | [] => 0
  | _ :: s' =>
      match skip with
      | S k => count_from k s' sub
      | O =>
          if startswith s sub then 1 + count_from (length sub - 1) s' sub
          else count_from 0 s' sub
      end
  end.

(** s.count(sub); the empty string is counted between all characters. *)
Definition str_count (s sub : str) : Z :=
  if decide (sub = []) then Z.of_nat (length s) + 1 else count_from 0 s sub.

(** [sub] occurs in [s]: some characters, then [sub], then the rest. *)
Definition substring (sub s : str) : Prop :=
  ∃ before after, s = before ++ sub ++ after.

(** ** The BM25 ranker *)

(** Python's [float] as far as [calculate_scores] needs it. The operations
    are total; what Python raises is decided by [is_zero] and [nonpositive]
    in [truediv], [int_truediv] and [math_log] below. *)
Class PyFloat (F : Type) : Type := mkPyFloat {
  of_int : Z → F;                 (* float(i) *)
  float_half : F;                 (* the literal 0.5 *)
  float_add : F → F → F;
  float_sub : F → F → F;
  float_mul : F → F → F;
  float_quotient : F → F → F;     (* x / y for y != 0.0 *)
  int_quotient : Z → Z → F;       (* i / j for ints, j != 0 *)
  is_zero : F → bool;             (* x == 0.0 *)
  nonpositive : F → bool;         (* x <= 0.0 *)
  float_ln : F → F }.             (* the logarithm of a positive float *)

Section Ranker.

Context {F : Type} `{PyFloat F}.

(** [hash] on [str], of the interpreter. *)
Variable hash : str → Z.

Variable str_lower : str → str.

(** x / y on floats *)
Definition truediv (x y : F) : outcome F :=
  if is_zero y then Raise ZeroDivisionError else Ok (float_quotient x y).

(** i / j on ints *)
Definition int_truediv (i j : Z) : outcome F :=
  if j =? 0 then Raise ZeroDivisionError else Ok (int_quotient i j).

(** math.log(x) *)
Definition math_log (x : F) : outcome F :=
  if nonpositive x then Raise ValueError else Ok (float_ln x).

Record BM25 : Type := mkBM25 { k1 : F; b : F }.

(** dict(pairs): a later pair replaces an earlier one with the same key. *)
Definition dict_of_pairs (pairs : list (Z * Z)) : gmap Z Z :=
  foldl (fun d kv => <[kv.1 := kv.2]> d) ∅ pairs.

(** num_words = dict((hash(doc), doc.count(" ") + 1) for doc in corpus) *)
Definition num_words_of (corpus : list str) : gmap Z Z :=
  dict_of_pairs ((fun doc => (hash doc, str_count doc [0x20] + 1)) <$> corpus).

(** sum(num_words.values()) *)
Definition sum_values (d : gmap Z Z) : Z :=
  map_fold (fun _ v acc => v + acc) 0 d.

(** The inner loop over the corpus: the number of documents [term] occurs in. *)
Definition tally (term : str) (corpus : list str) : Z :=
  foldl (fun frequency document =>
           frequency + (if -1 <? str_find document term then 1 else 0)) 0 corpus.

(** The list [query_terms] after the loop over the query. *)
Definition query_terms_of (query corpus : list str) : list (str * Z) :=
  (fun term => (term, tally term corpus)) <$> query.

(** What one term adds to [total_score]. *)
Definition term_score (self : BM25) (num_words : gmap Z Z) (avg_doc_len : F)
    (corpus_size : Z) (document : str) (term_frequency : str * Z) : outcome F :=
  let '(term, frequency) := term_frequency in
  ratio ← truediv (float_add (of_int frequency) float_half)
                  (float_add (of_int (corpus_size - frequency)) float_half);
  idf ← math_log ratio;
  let doc_frequency := str_count document term in
  num_words_doc ← match num_words !! hash document with
                  | Some n => Ok n
                  | None => Raise KeyError
                  end;
  let doc_k1 := float_mul (of_int doc_frequency) (float_add (k1 self) (of_int 1)) in
  relative_len ← truediv (of_int num_words_doc) avg_doc_len;
  let doc_b := float_add
                 (float_sub (float_add (of_int doc_frequency)
                                       (float_mul (k1 self) (of_int 1)))
                            (b self))
                 (float_mul (b self) relative_len) in
  fraction ← truediv doc_k1 doc_b;
  Ok (float_mul idf fraction).

(** for term_frequency in query_terms: total_score += ... *)
Fixpoint score_loop (self : BM25) (num_words : gmap Z Z) (avg_doc_len : F)
    (corpus_size : Z) (document : str) (query_terms : list (str * Z))
    (total_score : F) : outcome F :=
  match query_terms with
  | [] => Ok total_score
  | term_frequency :: query_terms' =>
      x ← term_score self num_words avg_doc_len corpus_size document term_frequency;
      score_loop self num_words avg_doc_len corpus_size document query_terms'
                 (float_add total_score x)
  end.

(** The body of the loop over the corpus: the score appended for [document]. *)
Definition document_score (self : BM25) (num_words : gmap Z Z) (avg_doc_len : F)
    (corpus_size : Z) (query_terms : list (str * Z)) (document : str) : outcome F :=
  score_loop self num_words avg_doc_len corpus_size document query_terms (of_int 0).

(** BM25.calculate_scores *)
Definition calculate_scores (self : BM25) (query corpus : list str) : outcome (list F) :=
  let corpus_size := Z.of_nat (length corpus) in
  let query := str_lower <$> query in
  let corpus := str_lower <$> corpus in
  let num_words := num_words_of corpus in
  avg_doc_len ← int_truediv (sum_values num_words) (Z.of_nat (length corpus));
  let query_terms := query_terms_of query corpus in
  for_each (document_score self num_words avg_doc_len corpus_size query_terms) corpus.

End Ranker.

(** ** Instances for running the model

    The interpreter's parts the model takes as parameters, in a form that
    computes, and a writer of small archives. No theorem depends on them;
    the examples are run with them. *)

(** Archives without LZMA streams need no decompressor: this one refuses
    every stream. *)
Definition no_lzma_streams : list byte → outcome (list byte) :=
  fun _ => Raise LZMAError.

(** [str.lower] on the letters A to Z, the other code points unchanged. *)
Definition ascii_lower : str → str :=
  fmap (fun c => if (0x41 <=? c) && (c <=? 0x5A) then c + 32 else c).

(** The string hash of CPython before 3.4, as on a 64-bit build. *)
Definition string_hash (s : str) : Z :=
  match s with
  | [] => 0
  | c :: _ =>
      let x := foldl (fun x c => Z.lxor ((1000003 * x) mod 2 ^ 64) c)
                     (Z.shiftl c 7) s in
      let x := Z.lxor x (Z.of_nat (length s)) in
      let x := if 2 ^ 63 <=? x then x - 2 ^ 64 else x in
      if x =? -1 then -2 else x
  end.

(** IEEE binary64. [float_ln] sums the series of the logarithm; it is close
    to the C library's [log], not equal to it bit by bit. *)
Definition float_of_int (i : Z) : float :=
  if i <? 0 then PrimFloat.opp (PrimFloat.of_uint63 (Uint63.of_Z (- i)))
  else PrimFloat.of_uint63 (Uint63.of_Z i).

(** 2 * (t + t^3/3 + t^5/5 + ...), [terms] terms from the one in t^n on. *)
Fixpoint atanh_series (terms : nat) (n : Z) (power square : float) : float :=
  match terms with
  | O => 0%float
  | S terms' =>
      PrimFloat.add (PrimFloat.div power (float_of_int n))
                    (atanh_series terms' (n + 2) (PrimFloat.mul power square) square)
  end.

Definition series_ln (x : float) : float :=
  let '(m, e) := PrimFloat.frshiftexp x in
  let exponent := Uint63.to_Z e - 2101 in   (* frshiftexp shifts the exponent by 2101 *)
  let t := PrimFloat.div (PrimFloat.sub m 1%float) (PrimFloat.add m 1%float) in
  PrimFloat.add
    (PrimFloat.mul (float_of_int exponent) 0x1.62e42fefa39efp-1%float)
    (PrimFloat.mul 2%float (atanh_series 24 1 t (PrimFloat.mul t t))).

#[global] Instance binary64 : PyFloat float := {|
  of_int := float_of_int;
  float_half := 0.5%float;
  float_add := PrimFloat.add;
  float_sub := PrimFloat.sub;
  float_mul := PrimFloat.mul;
  float_quotient := PrimFloat.div;
  int_quotient := fun i j => PrimFloat.div (float_of_int i) (float_of_int j);
  is_zero := fun x => PrimFloat.eqb x 0%float;
  nonpositive := fun x => PrimFloat.leb x 0%float;
  float_ln := series_ln |}.

(** BM25() with its default parameters, k1=1.2 (the binary64 value nearest
    to it) and b=0.75. *)
Definition BM25_default : BM25 := mkBM25 0x1.3333333333333p+0%float 0.75%float.

(** The bytes and the text of a literal. *)
Definition bytes_of (s : string) : list byte := String.list_byte_of_string s.
Definition text (s : string) : str := str_of_bytes (bytes_of s).

(** A search for two keywords over three titles. *)
Definition example_query : list str := [text "Quick"; text "brown"].
Definition example_corpus : list str :=
  [text "The quick brown fox"; text "slow green turtle"; text "Quickly"].

(** *** Writing a small archive *)

Definition article_entry_bytes (mimetype : Z) (namespace : string)
    (clusterNumber blobNumber : Z) (url title : string) : list byte :=
  pack_uint 2 mimetype ++ pack_uint 1 0 ++ bytes_of namespace ++ pack_uint 4 0
  ++ pack_uint 4 clusterNumber ++ pack_uint 4 blobNumber
  ++ bytes_of url ++ ZERO ++ bytes_of title ++ ZERO.

Definition redirect_entry_bytes (namespace : string) (redirectIndex : Z)
    (url title : string) : list byte :=
  pack_uint 2 0xffff ++ pack_uint 1 0 ++ bytes_of namespace ++ pack_uint 4 0
  ++ pack_uint 4 redirectIndex
  ++ bytes_of url ++ ZERO ++ bytes_of title ++ ZERO.

(** The positions of consecutive records of the given sizes, from [start]
    on, and the position after the last. *)
Fixpoint positions (start : Z) (sizes : list nat) : list Z :=
  match sizes with
  | [] => [start]
  | n :: sizes' => start :: positions (start + Z.of_nat n) sizes'
  end.

(** The offset table of a cluster body, one offset per blob and one for the
    end of the last blob. *)
Definition offset_table (offsets : list Z) : list byte :=
  concat (pack_uint 4 <$> offsets).

Definition cluster_body (blobs : list (list byte)) : list byte :=
  offset_table (positions (4 * (Z.of_nat (length blobs) + 1)) (length <$> blobs))
  ++ concat blobs.

Definition cluster_bytes (compressionType : Z) (blobs : list (list byte)) : list byte :=
  pack_uint 1 compressionType ++ cluster_body blobs.

(** Header, mimetype list, the three pointer tables, the directory entries,
    the clusters. The title pointers are in directory order. *)
Definition archive_bytes (mimetypes : list string) (entries clusters : list (list byte))
    (mainPage : Z) : list byte :=
  let mime_list := concat ((fun m => bytes_of m ++ ZERO) <$> mimetypes) ++ ZERO in
  let n := Z.of_nat (length entries) in
  let m := Z.of_nat (length clusters) in
  let mimeListPos := 80 in
  let urlPtrPos := mimeListPos + Z.of_nat (length mime_list) in
  let titlePtrPos := urlPtrPos + 8 * n in
  let clusterPtrPos := titlePtrPos + 4 * n in
  let entriesPos := clusterPtrPos + 8 * m in
  let entry_positions := positions entriesPos (length <$> entries) in
  let clustersPos := List.last entry_positions 0 in
  let cluster_positions := positions clustersPos (length <$> clusters) in
  let checksumPos := List.last cluster_positions 0 in
  pack_uint 4 72173914 ++ pack_uint 4 5 ++ pack_uint 8 0 ++ pack_uint 8 0
  ++ pack_uint 4 n ++ pack_uint 4 m
  ++ pack_uint 8 urlPtrPos ++ pack_uint 8 titlePtrPos
  ++ pack_uint 8 clusterPtrPos ++ pack_uint 8 mimeListPos
  ++ pack_uint 4 mainPage ++ pack_uint 4 0xffffffff ++ pack_uint 8 checksumPos
  ++ mime_list
  ++ concat (pack_uint 8 <$> take (length entries) entry_positions)
  ++ concat (pack_uint 4 <$> seqZ 0 n)
  ++ concat (pack_uint 8 <$> take (length clusters) cluster_positions)
  ++ concat entries
  ++ concat clusters
  ++ replicate 16 x00.

(** *** Example archives *)

(** Two articles, A/a at index 0 and A/b at index 1, in one raw cluster. *)
Definition two_articles : list byte :=
  archive_bytes ["text/html"]
    [ article_entry_bytes 0 "A" 0 0 "a" "First";
      article_entry_bytes 0 "A" 0 1 "b" "Second" ]
    [ cluster_bytes 1 [bytes_of "<html>one</html>"; bytes_of "<html>two</html>"] ]
    0.

(** Its directory. *)
Definition two_articles_entries : list Entry :=
  [ mkEntry 0 0 (text "A") 0 (ArticleFields 0 0) (text "a") (text "First") (Some 0);
    mkEntry 0 0 (text "A") 0 (ArticleFields 0 1) (text "b") (text "Second") (Some 1) ].

(** A/alias, a redirect to the index of A/target. *)
Definition one_redirect : list byte :=
  archive_bytes ["text/html"]
    [ redirect_entry_bytes "A" 1 "alias" "";
      article_entry_bytes 0 "A" 0 0 "target" "" ]
    [ cluster_bytes 1 [bytes_of "<html>target</html>"] ]
    1.

(** Two redirects that point at each other, before an article. *)
Definition redirect_cycle : list byte :=
  archive_bytes ["text/html"]
    [ redirect_entry_bytes "A" 1 "x" "";
      redirect_entry_bytes "A" 0 "y" "";
      article_entry_bytes 0 "A" 0 0 "z" "" ]
    [ cluster_bytes 1 [bytes_of "<html>z</html>"] ]
    2.

(** An article before the metadata entries M/Language and M/Title. *)
Definition with_metadata : list byte :=
  archive_bytes ["text/html"; "text/plain"]
    [ article_entry_bytes 0 "A" 0 0 "home" "";
      article_entry_bytes 1 "M" 0 1 "Language" "";
      article_entry_bytes 1 "M" 0 2 "Title" "" ]
    [ cluster_bytes 1 [bytes_of "<html>hi</html>"; bytes_of "eng"; bytes_of "Wiki"] ]
    0.

(** An article and two metadata entries whose urls differ by case only. *)
Definition metadata_twice : list byte :=
  archive_bytes ["text/html"; "text/plain"]
    [ article_entry_bytes 0 "A" 0 0 "home" "";
      article_entry_bytes 1 "M" 0 1 "Title" "";
      article_entry_bytes 1 "M" 0 2 "title" "" ]
    [ cluster_bytes 1 [bytes_of "<html>hi</html>"; bytes_of "Wiki"; bytes_of "wiki, again"] ]
    0.

(** A file that is one raw cluster with two blobs, of 10 and of 20 bytes. *)
Definition cluster_of_two_blobs : list byte :=
  cluster_bytes 1 [bytes_of "0123456789"; bytes_of "abcdefghijklmnopqrst"].

(** A file that is one cluster with compressionType 2 and two blobs. *)
Definition cluster_of_type_2 : list byte :=
  cluster_bytes 2 [bytes_of "0123456789"; bytes_of "abcdefghijklmnopqrst"].

(** ZIMFile(filename, "utf-8") for an example archive: the object
    [ZIMFile_init] returns (lemma [opened_init] for the archives above). *)
Definition opened (contents : list byte) : ZIMFile :=
  match ZIMFile_init contents codec_utf_8 with
  | Ok self => self
  | _ => mkZIMFile codec_utf_8 contents (mkHeader 0 0 0 0 0 0 0 0 0 0 0 0 0) []
  end.

(** ** Writing what the reader reads

    The reader has no writer beside it. The functions below lay out bytes
    the way [struct.pack] and the file format do; the properties of the
    reader are stated on what they write. *)

(** Struct("<" + formats).pack( *values ), for values that fit their fields:
    an integer as the bytes of its field, low byte first; the byte of a
    [c] field as it is. *)
Fixpoint Struct_pack (structure : list Field) (values : list field_value) : list byte :=
  match structure, values with
  | fld :: structure', v :: values' =>
      match v with
      | int_value z => pack_uint (format_size (field_format fld)) z
      | bytes_value bs => bs
      end ++ Struct_pack structure' values'
  | _, _ => []
  end.

(** [v] is a value of the field [fld]: an unsigned integer of the width of
    its format, or one byte for the format [c]. *)
Definition fits (fld : Field) (v : field_value) : Prop :=
  match v with
  | int_value z =>
      field_format fld ≠ fmt_c ∧ 0 ≤ z < 256 ^ Z.of_nat (format_size (field_format fld))
  | bytes_value bs => field_format fld = fmt_c ∧ length bs = 1%nat
  end.

(** The values of the header fields, in the order of HEADER. *)
Definition header_values (h : HeaderFields) : list field_value :=
  [ int_value (magicNumber h); int_value (version h);
    int_value (uuid_low h); int_value (uuid_high h);
    int_value (articleCount h); int_value (clusterCount h);
    int_value (urlPtrPos h); int_value (titlePtrPos h);
    int_value (clusterPtrPos h); int_value (mimeListPos h);
    int_value (mainPage h); int_value (layoutPage h);
    int_value (checksumPos h) ].

(** The 80 bytes of a header. *)
Definition header_bytes (h : HeaderFields) : list byte :=
  Struct_pack HEADER (header_values h).

(** The text of a field decoded with errors="ignore": its well-formed
    sequences, in order. *)
Definition decoded (encoding : codec) (field : list byte) : str :=
  omap id (sequences encoding field).

(** The structure of a directory entry of each kind, and the values of its
    fields in the order of the structure; the namespace is one byte. *)
Definition entry_structure (k : entry_kind) : list Field :=
  match k with
  | ArticleFields _ _ => ARTICLE_ENTRY
  | RedirectFields _ => REDIRECT_ENTRY
  end.

Definition entry_values (mimetype_ parameterLen_ : Z) (namespace_ : byte)
    (revision_ : Z) (k : entry_kind) : list field_value :=
  [ int_value mimetype_; int_value parameterLen_; bytes_value [namespace_];
    int_value revision_ ]
  ++ match k with
     | ArticleFields clusterNumber_ blobNumber_ =>
         [ int_value clusterNumber_; int_value blobNumber_ ]
     | RedirectFields redirectIndex_ => [ int_value redirectIndex_ ]
     end.

(** A directory entry in the file: the fields of its structure, the url and
    the title, each closed by a ZERO. *)
Definition directory_entry_bytes (structure : list Field) (values : list field_value)
    (url_ title_ : list byte) : list byte :=
  Struct_pack structure values ++ url_ ++ ZERO ++ title_ ++ ZERO.

(** A pointer table: its elements as unsigned integers of [width] bytes. *)
Definition pointer_table (width : nat) (pointers : list Z) : list byte :=
  concat (pack_uint width <$> pointers).

(** The mimetype list in the file: every name closed by a ZERO. The list
    itself is closed by an empty name, which is one more ZERO. *)
Definition mimetype_list_bytes (names : list (list byte)) : list byte :=
  concat ((fun name => name ++ ZERO) <$> names).

(** ** Iterating over a [ZIMFile]

    ZIMFile.__iter__, run to its end: the tuples the generator yields, in
    order, and how it ends: exhausted, or with the exception of the entry
    it could not read. *)
Fixpoint iter_loop (self : ZIMFile) (indices : list Z)
    : list (str * str * Z) * outcome unit :=
  match indices with
  | [] => ([], Ok tt)
  | idx :: indices' =>
      match read_directory_entry_by_index self idx with
      | Ok entry =>
          let '(yielded, r) := iter_loop self indices' in
          if decide (namespace entry = [0x41])
          then ((full_url (namespace entry) (url entry), title entry, idx) :: yielded, r)
          else (yielded, r)
      | Raise e => ([], Raise e)
      | Hang => ([], Hang)
      end
  end.

Definition ZIMFile_iter (self : ZIMFile) : list (str * str * Z) * outcome unit :=
  iter_loop self (seqZ 0 (articleCount (header_fields self))).

(** The tuples (full url, title, index) of the entries in the namespace "A"
    among indexed entries, in their order. *)
Definition articles_of (directory : list (Z * Entry)) : list (str * str * Z) :=
  (fun ie => (full_url (namespace ie.2) (url ie.2), title ie.2, ie.1))
  <$> filter (fun ie => namespace ie.2 = [0x41]) directory.

(** ** The function [binary_search]

    binary_search(func, item, front, end) for integer bounds, with the
    indices it hands to [func], in order: (the probed indices, the result).
    [found_item == item] is the equality of [A] and [found_item < item] is
    [lt]. Every round that does not find the item shrinks [end - front] by
    one at least, so the loop is over within [end - front] rounds; [Hang]
    where the rounds run out is not what [binary_search] returns unless
    [func] does (lemma [binary_search_while_sound]). [floor((front + end) / 2)]
    divides floats, exactly for sums below 2^53. *)
Section BinarySearch.

Context {A : Type} `{EqDecision A}.

Variable lt : A → A → bool.



End BinarySearch.

(** Three titles, two of which are the same once lowercased. *)
Definition example_corpus_repeated : list str :=
  [text "Quick fox"; text "quick FOX"; text "Quickly"].

(** ** What a request asks for

    The first part of ZIMRequestHandler.on_get: from the unquoted relative
    uri of the request to the call that fetches the article, which is
    [get_main_page()] or [get_article_by_url(namespace, url)]. *)

(** s.split(sep) for a separator of one character *)
Fixpoint str_split (sep : Z) (s : str) : list str :=
  match s with
  | [] => [[]]
  | c :: s' =>
      if decide (c = sep) then [] :: str_split sep s'
      else match str_split sep s' with
           | part :: parts => (c :: part) :: parts
           | [] => [[c]]
           end
  end.

(** sep.join(parts) *)
Definition str_join (sep : str) (parts : list str) : str :=
  match parts with
  | [] => []
  | part :: parts' => part ++ concat ((fun p => sep ++ p) <$> parts')
  end.

Definition main_page_locations : list str :=
  [text "/"; text "/index.htm"; text "/index.html"; text "/main.htm"; text "/main.html"].

Inductive resource : Type :=
  | main_page
  | by_url (namespace_ url_ : str).

(** [_, namespace, *url_parts = location.split("/")] needs two parts at
    least: ValueError for a location without "/". *)
Definition requested (location : str) : outcome resource :=
  if bool_decide (location ∈ main_page_locations) then Ok main_page
  else
    match str_split 0x2F location with
    | _ :: namespace :: url_parts =>
        if 1 <? Z.of_nat (length namespace) then Ok (by_url [0x41] namespace)
        else Ok (by_url namespace (str_join [0x2F] url_parts))
    | _ => Raise ValueError
    end.

(** * Properties *)

(** ** The outcome monad *)

Lemma bind_Ok {A B : Type} (f : A → outcome B) (m : outcome A) (y : B) :
  m ≫= f = Ok y ↔ ∃ x, m = Ok x ∧ f x = Ok y.
Proof.
  destruct m as [x | e | ]; simpl; split.
  - intros Hf. exists x. auto.
  - intros (x' & Hx & Hf). injection Hx as ->. exact Hf.
  - discriminate.
  - intros (x' & Hx & _). discriminate.
  - discriminate.
  - intros (x' & Hx & _). discriminate.
Qed.

Lemma for_each_Ok {A B : Type} (body : A → outcome B) (l : list A) (ys : list B) :
  for_each body l = Ok ys ↔ Forall2 (fun x y => body x = Ok y) l ys.
Proof.
  revert ys. induction l as [ | x l IH]; intros ys; simpl.
  - split.
    + intros [= <-]. constructor.
    + intros Hl. inversion Hl. reflexivity.
  - split.
    + intros Hb. apply bind_Ok in Hb as (y & Hy & Hb).
      apply bind_Ok in Hb as (ys' & Hys & [= <-]).
      constructor; [exact Hy | apply IH; exact Hys].
    + intros Hl. inversion Hl as [ | ? y ? ys' Hy Hys]; subst.
      rewrite Hy. simpl. apply IH in Hys. rewrite Hys. reflexivity.
Qed.

(** ** Decoding *)

Lemma decode_ignore_sequences (c : codec) (bs : list byte) (skip : nat) :
  decode_from c ignore skip bs = Ok (omap id (sequences_from c skip bs)).
Proof.
  revert skip. induction bs as [ | b0 rest IH]; intros skip; simpl; [reflexivity | ].
  destruct skip as [ | k]; [ | apply IH].
  destruct (decode_char c b0 rest) as [[cp | ] n]; simpl.
  - rewrite IH. reflexivity.
  - apply IH.
Qed.

Lemma decode_replace_sequences (c : codec) (bs : list byte) (skip : nat) :
  decode_from c replace skip bs
  = Ok (default REPLACEMENT_CHARACTER <$> sequences_from c skip bs).
Proof.
  revert skip. induction bs as [ | b0 rest IH]; intros skip; simpl; [reflexivity | ].
  destruct skip as [ | k]; [ | apply IH].
  destruct (decode_char c b0 rest) as [[cp | ] n]; simpl; rewrite IH; reflexivity.
Qed.

Lemma decode_strict_sequences (c : codec) (bs : list byte) (skip : nat) (s : str) :
  decode_from c strict skip bs = Ok s ↔ sequences_from c skip bs = Some <$> s.
Proof.
  revert skip s. induction bs as [ | b0 rest IH]; intros skip s; simpl.
  - split.
    + intros [= <-]. reflexivity.
    + destruct s; [reflexivity | discriminate].
  - destruct skip as [ | k]; [ | apply IH].
    destruct (decode_char c b0 rest) as [[cp | ] n]; simpl.
    + split.
      * intros Hb. apply bind_Ok in Hb as (tail & Ht & [= <-]).
        apply IH in Ht. rewrite Ht. reflexivity.
      * destruct s as [ | x s]; [discriminate | ]. simpl. intros [= -> Hs].
        apply IH in Hs. rewrite Hs. reflexivity.
    + split; [discriminate | ]. destruct s; discriminate.
Qed.

Lemma read_until_ZERO_field (field rest : list byte) :
  x00 ∉ field → read_until_ZERO (field ++ x00 :: rest) = Some field.
Proof.
  induction field as [ | b0 field IH]; intros Hz; simpl.
  - reflexivity.
  - apply not_elem_of_cons in Hz as [Hb Hz].
    destruct (decide ([b0] = ZERO)) as [Heq | _].
    + injection Heq as ->. contradiction.
    + rewrite (IH Hz). reflexivity.
Qed.

Lemma read_until_ZERO_none (rest : list byte) :
  x00 ∉ rest → read_until_ZERO rest = None.
Proof.
  induction rest as [ | b0 rest IH]; intros Hz; simpl; [reflexivity | ].
  apply not_elem_of_cons in Hz as [Hb Hz].
  destruct (decide ([b0] = ZERO)) as [Heq | _].
  - injection Heq as ->. contradiction.
  - rewrite (IH Hz). reflexivity.
Qed.

(** ** Streams *)

Lemma remaining_app (before rest : list byte) :
  remaining (Stream (before ++ rest) (Z.of_nat (length before))) = rest.
Proof.
  unfold remaining. simpl. rewrite length_app.
  destruct rest as [ | b0 rest].
  - simpl. rewrite Nat.add_0_r, Z.leb_refl. reflexivity.
  - destruct (Z.leb_spec (Z.of_nat (length before + length (b0 :: rest)))
                         (Z.of_nat (length before))) as [Hle | _].
    + simpl in Hle. lia.
    + rewrite Nat2Z.id, drop_app_length. reflexivity.
Qed.

Lemma remaining_at (before rest : list byte) (p : Z) :
  p = Z.of_nat (length before) → remaining (Stream (before ++ rest) p) = rest.
Proof. intros ->. apply remaining_app. Qed.

(** ** Zero-terminated strings *)

(** C8, as amended: a zero-terminated field is read up to its ZERO and never
    raises; it is decoded with errors="ignore": the text is made of the
    well-formed sequences of the field in order, and every malformed
    sequence is dropped without a trace, where errors="replace" would have
    put U+FFFD. The file is left after the ZERO. *)
Theorem read_zero_terminated_drops_malformed (encoding : codec)
    (before field after : list byte) :
  x00 ∉ field →
  read_zero_terminated
    (Stream (before ++ field ++ x00 :: after) (Z.of_nat (length before))) encoding
  = Ok (omap id (sequences encoding field),
        Stream (before ++ field ++ x00 :: after)
               (Z.of_nat (length before) + Z.of_nat (length field) + 1))
  ∧ bytes_decode encoding replace field
    = Ok (default REPLACEMENT_CHARACTER <$> sequences encoding field).
Proof.
  intros Hz. split.
  - unfold read_zero_terminated. rewrite remaining_app.
    rewrite (read_until_ZERO_field _ _ Hz).
    unfold bytes_decode. rewrite decode_ignore_sequences. reflexivity.
  - apply decode_replace_sequences.
Qed.

Lemma read_zero_terminated_drops_malformed_witness :
  (x00 ∉ [x61; xff; x62])
  ∧ read_zero_terminated (Stream ([x2f] ++ [x61; xff; x62] ++ x00 :: [x7a]) 1) codec_utf_8
    = Ok ([0x61; 0x62], Stream ([x2f] ++ [x61; xff; x62] ++ x00 :: [x7a]) 5).
Proof.
  assert (Hz : x00 ∉ [x61; xff; x62]).
  { intros Hin. repeat (apply elem_of_cons in Hin as [Heq | Hin]; [discriminate | ]).
    inversion Hin. }
  split; [exact Hz | ].
  exact (proj1 (read_zero_terminated_drops_malformed codec_utf_8 [x2f] _ [x7a] Hz)).
Defined.

(** C8 as stated fails: the field "a", 0xFF, "b" has a malformed byte
    between two characters; it is read as "ab", with no replacement marker
    for the dropped byte. *)
Lemma read_zero_terminated_no_marker :
  sequences codec_utf_8 [x61; xff; x62] = [Some 0x61; None; Some 0x62]
  ∧ read_zero_terminated (Stream [x61; xff; x62; x00] 0) codec_utf_8
    = Ok ([0x61; 0x62], Stream [x61; xff; x62; x00] 4)
  ∧ bool_decide (REPLACEMENT_CHARACTER ∈ [0x61; 0x62]) = false.
Proof. vm_compute. auto. Qed.

(** ** Little-endian integers *)

Lemma byte_val_range (b0 : byte) : 0 ≤ byte_val b0 < 256.
Proof.
  unfold byte_val. pose proof (Byte.to_N_bounded b0) as Hb. lia.
Qed.

Lemma byte_val_of_Z (z : Z) : byte_val (byte_of_Z z) = z mod 256.
Proof.
  unfold byte_val, byte_of_Z.
  pose proof (Z.mod_pos_bound z 256 ltac:(lia)) as Hm.
  destruct (Byte.of_N (Z.to_N (z mod 256))) as [b0 | ] eqn:Hof.
  - apply Byte.to_of_N in Hof. rewrite Hof. lia.
  - apply Byte.of_N_None_iff in Hof. lia.
Qed.

Lemma int_from_le_nonneg (bs : list byte) : 0 ≤ int_from_le bs.
Proof.
  induction bs as [ | b0 bs IH]; simpl; [lia | ].
  pose proof (byte_val_range b0). lia.
Qed.

Lemma length_pack_uint (width : nat) (z : Z) : length (pack_uint width z) = width.
Proof.
  revert z. induction width as [ | w IH]; intros z; simpl; [reflexivity | ].
  rewrite IH. reflexivity.
Qed.

Lemma int_from_le_pack_uint (width : nat) (z : Z) :
  0 ≤ z < 256 ^ Z.of_nat width → int_from_le (pack_uint width z) = z.
Proof.
  revert z. induction width as [ | w IH]; intros z Hz.
  - simpl in *. lia.
  - cbn [pack_uint int_from_le foldr]. fold (int_from_le (pack_uint w (z / 256))).
    rewrite byte_val_of_Z, IH.
    + pose proof (Z.div_mod z 256 ltac:(lia)). lia.
    + rewrite Nat2Z.inj_succ, Z.pow_succ_r in Hz by lia.
      split; [apply Z.div_pos; lia | apply Z.div_lt_upper_bound; lia].
Qed.

Lemma unpack_pack_uint (width : nat) (z : Z) :
  0 ≤ z < 256 ^ Z.of_nat width → unpack_uint width (pack_uint width z) = Ok z.
Proof.
  intros Hz. unfold unpack_uint.
  rewrite length_pack_uint, decide_True by reflexivity.
  rewrite int_from_le_pack_uint by exact Hz. reflexivity.
Qed.

Lemma unpack_uint_nonneg (width : nat) (buffer : list byte) (z : Z) :
  unpack_uint width buffer = Ok z → 0 ≤ z.
Proof.
  unfold unpack_uint. destruct (decide _); [ | discriminate].
  intros [= <-]. apply int_from_le_nonneg.
Qed.

(** ** Reading from a stream *)

Lemma read_fst (f : stream) (size : Z) :
  0 ≤ size → fst (read f size) = take (Z.to_nat size) (remaining f).
Proof.
  intros Hs. unfold read. cbn [fst].
  destruct (Z.ltb_spec size 0) as [ | _]; [lia | ]. cbn [orb].
  destruct (Z.leb_spec (Z.of_nat (length (remaining f))) size) as [Hle | _];
    [ | reflexivity].
  rewrite take_ge by lia. reflexivity.
Qed.


Lemma remaining_advance (d : list byte) (p k : Z) :
  0 ≤ p → 0 ≤ k →
  remaining (Stream d (p + k)) = drop (Z.to_nat k) (remaining (Stream d p)).
Proof.
  intros Hp Hk. unfold remaining. cbn [data pos].
  destruct (Z.leb_spec (Z.of_nat (length d)) p) as [Hle | Hlt].
  - destruct (Z.leb_spec (Z.of_nat (length d)) (p + k)) as [_ | Hlt']; [ | lia].
    rewrite drop_nil. reflexivity.
  - rewrite drop_drop.
    destruct (Z.leb_spec (Z.of_nat (length d)) (p + k)) as [Hle' | Hlt'].
    + rewrite drop_ge by lia. reflexivity.
    + f_equal. lia.
Qed.

Lemma read_snd (f : stream) (size : Z) :
  0 ≤ pos f → 0 ≤ size →
  0 ≤ pos (snd (read f size))
  ∧ data (snd (read f size)) = data f
  ∧ remaining (snd (read f size)) = drop (Z.to_nat size) (remaining f).
Proof.
  intros Hp Hs. unfold read. cbn [snd pos data].
  destruct (Z.ltb_spec size 0) as [ | _]; [lia | ]. cbn [orb].
  split; [lia | ]. split; [reflexivity | ].
  destruct f as [d p]. cbn [data pos] in *.
  destruct (Z.leb_spec (Z.of_nat (length (remaining (Stream d p)))) size) as [Hle | Hlt].
  - rewrite remaining_advance by lia.
    rewrite Nat2Z.id, drop_all, drop_ge by lia. reflexivity.
  - rewrite remaining_advance by lia. f_equal.
    rewrite length_take. lia.
Qed.

Lemma remaining_start (l : list byte) : remaining (Stream l 0) = l.
Proof. exact (remaining_app [] l). Qed.

Lemma remaining_shift (before rest : list byte) (k : Z) :
  0 ≤ k →
  remaining (Stream (before ++ rest) (Z.of_nat (length before) + k))
  = remaining (Stream rest k).
Proof.
  intros Hk.
  rewrite remaining_advance by lia. rewrite remaining_app.
  change k with (0 + k) at 2.
  rewrite (remaining_advance rest 0 k) by lia.
  rewrite remaining_start. reflexivity.
Qed.

Lemma getitem_lookup {A : Type} (l : list A) (i : Z) (x : A) :
  0 ≤ i → l !! Z.to_nat i = Some x → getitem l i = Ok x.
Proof.
  intros Hi Hx. unfold getitem.
  pose proof (lookup_lt_Some _ _ _ Hx) as Hlt.
  destruct (Z.ltb_spec i (- Z.of_nat (length l))) as [ | _]; [lia | ].
  destruct (Z.leb_spec (Z.of_nat (length l)) i) as [ | _]; [lia | ].
  destruct (Z.ltb_spec i 0) as [ | _]; [lia | ].
  cbn [orb]. rewrite Hx. reflexivity.
Qed.

Lemma getitem_elem_of {A : Type} (l : list A) (i : Z) (x : A) :
  getitem l i = Ok x → x ∈ l.
Proof.
  unfold getitem. destruct (_ || _); [discriminate | ].
  destruct (l !! _) as [y | ] eqn:Hy; [ | discriminate].
  intros [= <-]. eapply list_elem_of_lookup_2. exact Hy.
Qed.

(** ** The mimetype list *)

Lemma read_until_ZERO_Some (l field : list byte) :
  read_until_ZERO l = Some field → ∃ rest, l = field ++ x00 :: rest.
Proof.
  revert field. induction l as [ | b0 l IH]; intros field; cbn [read_until_ZERO];
    [discriminate | ].
  destruct (decide ([b0] = ZERO)) as [Heq | _].
  - injection Heq as ->. intros [= <-]. exists l. reflexivity.
  - destruct (read_until_ZERO l) as [field' | ]; [ | discriminate].
    intros [= <-]. destruct (IH field' eq_refl) as (rest & ->).
    exists rest. reflexivity.
Qed.

(** Every round of the loop takes a ZERO from the file, so the loop is over
    (or hangs in [read_zero_terminated]) before the rounds are: with more
    rounds than bytes left, the number of rounds does not matter. *)
Lemma mimetypes_loop_rounds (encoding : codec) (rounds1 rounds2 : nat) (file : stream) :
  0 ≤ pos file →
  (length (remaining file) < rounds1)%nat → (length (remaining file) < rounds2)%nat →
  mimetypes_loop rounds1 file encoding = mimetypes_loop rounds2 file encoding.
Proof.
  revert rounds2 file. induction rounds1 as [ | rounds1 IH]; intros rounds2 file Hp H1 H2;
    [lia | ].
  destruct rounds2 as [ | rounds2]; [lia | ].
  cbn [mimetypes_loop]. unfold read_zero_terminated.
  destruct (read_until_ZERO (remaining file)) as [field | ] eqn:Hfield; [ | reflexivity].
  destruct (bytes_decode encoding ignore field) as [s | e | ]; try reflexivity.
  cbn [mbind outcome_bind]. destruct (decide (s = [])); [reflexivity | ].
  apply read_until_ZERO_Some in Hfield as (rest & Hrest).
  assert (Hlen : (length (remaining (Stream (data file)
                                      (pos file + Z.of_nat (length field) + 1)))
                  < length (remaining file))%nat).
  { destruct file as [d p]. cbn [data pos] in *.
    rewrite <- Z.add_assoc, remaining_advance by lia.
    rewrite Hrest, length_drop, length_app. cbn [length]. lia. }
  rewrite (IH rounds2) by (cbn [pos]; lia). reflexivity.
Qed.

(** ** Clusters *)

Section Clusters.

Variable lzma_decompress : list byte → outcome (list byte).

(** Two streams that have the same bytes ahead give the same reads. *)
Lemma read_more_offsets_ext (n : nat) (s1 s2 : stream) :
  0 ≤ pos s1 → 0 ≤ pos s2 → remaining s1 = remaining s2 →
  read_more_offsets n s1 = read_more_offsets n s2.
Proof.
  revert s1 s2. induction n as [ | n IH]; intros s1 s2 Hp1 Hp2 Hr;
    cbn [read_more_offsets]; [reflexivity | ].
  pose proof (read_fst s1 4 ltac:(lia)) as Hf1.
  pose proof (read_fst s2 4 ltac:(lia)) as Hf2.
  destruct (read_snd s1 4 Hp1 ltac:(lia)) as (Hq1 & _ & Hr1).
  destruct (read_snd s2 4 Hp2 ltac:(lia)) as (Hq2 & _ & Hr2).
  destruct (read s1 4) as [b1 t1], (read s2 4) as [b2 t2]. cbn [fst snd] in *.
  rewrite Hf1, Hf2, Hr. rewrite (IH t1 t2 Hq1 Hq2) by congruence. reflexivity.
Qed.

Lemma read_more_offsets_table (offsets : list Z) (payload : list byte) (s : stream) :
  0 ≤ pos s →
  remaining s = offset_table offsets ++ payload →
  Forall (fun o => 0 ≤ o < 2 ^ 32) offsets →
  read_more_offsets (length offsets) s = Ok offsets.
Proof.
  revert s. induction offsets as [ | o offsets IH]; intros s Hp Hr Hrange; [reflexivity | ].
  apply Forall_cons in Hrange as [Ho Hrange]. cbn [length read_more_offsets].
  pose proof (read_fst s 4 ltac:(lia)) as Hf.
  destruct (read_snd s 4 Hp ltac:(lia)) as (Hq & _ & Hr').
  destruct (read s 4) as [b4 s']. cbn [fst snd] in *.
  unfold offset_table in Hr. cbn [fmap list_fmap concat] in Hr.
  rewrite Hr, <- app_assoc in Hf, Hr'.
  replace (Z.to_nat 4) with (length (pack_uint 4 o)) in Hf, Hr'
    by (rewrite length_pack_uint; reflexivity).
  rewrite take_app_length in Hf. rewrite drop_app_length in Hr'.
  rewrite Hf, unpack_pack_uint by (change (256 ^ Z.of_nat 4) with (2 ^ 32); lia).
  cbn [mbind outcome_bind]. rewrite (IH s' Hq Hr' Hrange). reflexivity.
Qed.

Lemma read_more_offsets_nonneg (n : nat) (s : stream) (offsets : list Z) :
  read_more_offsets n s = Ok offsets → Forall (fun o => 0 ≤ o) offsets.
Proof.
  revert s offsets. induction n as [ | n IH]; intros s offsets; cbn [read_more_offsets].
  - intros [= <-]. constructor.
  - destruct (read s 4) as [b4 s']. intros Hb.
    apply bind_Ok in Hb as (o & Ho & Hb). apply bind_Ok in Hb as (os & Hos & [= <-]).
    constructor; [eapply unpack_uint_nonneg; exact Ho | eapply IH; exact Hos].
Qed.

(** [_read_offsets] and [read_blob] see the cluster through
    [_source_buffer] only. *)
Lemma _read_offsets_ext (self1 self2 : ClusterData) (s1 s2 : stream) :
  _source_buffer self1 = Ok s1 → _source_buffer self2 = Ok s2 →
  0 ≤ pos s1 → 0 ≤ pos s2 → remaining s1 = remaining s2 →
  _read_offsets self1 = _read_offsets self2.
Proof.
  intros Hs1 Hs2 Hp1 Hp2 Hr. unfold _read_offsets. rewrite Hs1, Hs2.
  cbn [mbind outcome_bind].
  pose proof (read_fst s1 4 ltac:(lia)) as Hf1.
  pose proof (read_fst s2 4 ltac:(lia)) as Hf2.
  destruct (read_snd s1 4 Hp1 ltac:(lia)) as (Hq1 & _ & Hr1).
  destruct (read_snd s2 4 Hp2 ltac:(lia)) as (Hq2 & _ & Hr2).
  destruct (read s1 4) as [b1 t1], (read s2 4) as [b2 t2]. cbn [fst snd] in *.
  rewrite Hf1, Hf2, Hr.
  destruct (unpack_uint 4 _) as [offset0 | | ]; cbn [mbind outcome_bind]; try reflexivity.
  rewrite (read_more_offsets_ext _ t1 t2 Hq1 Hq2) by congruence. reflexivity.
Qed.

Lemma _read_offsets_nonneg (self : ClusterData) (offsets : list Z) :
  _read_offsets self = Ok offsets → Forall (fun o => 0 ≤ o) offsets.
Proof.
  unfold _read_offsets. intros Hb.
  apply bind_Ok in Hb as (s & _ & Hb). destruct (read s 4) as [b4 s'].
  apply bind_Ok in Hb as (o & Ho & Hb). apply bind_Ok in Hb as (os & Hos & [= <-]).
  constructor; [eapply unpack_uint_nonneg; exact Ho | ].
  eapply read_more_offsets_nonneg. exact Hos.
Qed.

Lemma read_blob_ext (self1 self2 : ClusterData) (s1 s2 : stream) (blob_index : Z) :
  _source_buffer self1 = Ok s1 → _source_buffer self2 = Ok s2 →
  0 ≤ pos s1 → 0 ≤ pos s2 → remaining s1 = remaining s2 →
  compressed self1 = compressed self2 →
  _offsets self1 = _offsets self2 →
  Forall (fun o => 0 ≤ o) (_offsets self1) →
  read_blob self1 blob_index = read_blob self2 blob_index.
Proof.
  intros Hs1 Hs2 Hp1 Hp2 Hr Hc Hoff Hnn. unfold read_blob.
  rewrite <- Hoff, <- Hc, Hs1, Hs2.
  destruct (_ <=? blob_index); [reflexivity | ]. cbn [mbind outcome_bind].
  destruct (getitem (_offsets self1) (blob_index + 1)) as [next | | ];
    cbn [mbind outcome_bind]; try reflexivity.
  destruct (getitem (_offsets self1) blob_index) as [this | | ] eqn:Hthis;
    cbn [mbind outcome_bind]; try reflexivity.
  apply getitem_elem_of in Hthis.
  rewrite Forall_forall in Hnn. specialize (Hnn this Hthis).
  assert (Hseek : ∀ s, 0 ≤ pos s →
            seek_cur (compressed self1) s this = Ok (Stream (data s) (pos s + this))).
  { intros s Hp. unfold seek_cur, seek. destruct (compressed self1).
    - rewrite Z.max_r by lia. reflexivity.
    - destruct (Z.ltb_spec (pos s + this) 0) as [ | _]; [lia | reflexivity]. }
  rewrite !Hseek by assumption. cbn [mbind outcome_bind].
  unfold read_size, read. cbn [fst].
  destruct s1 as [d1 p1], s2 as [d2 p2]. cbn [data pos] in *.
  rewrite !remaining_advance by lia. rewrite Hr. reflexivity.
Qed.


(** What [ClusterData.__init__] does once the compressionType byte is read. *)
Lemma ClusterData_init_at (encoding : codec) (before rest : list byte) (t : byte) :
  ClusterData_init lzma_decompress (before ++ t :: rest) (Z.of_nat (length before)) encoding
  = (let file := before ++ t :: rest in
     let offset := Z.of_nat (length before) in
     let compressed := bool_decide (byte_val t = 4) in
     buffer ← _decompress lzma_decompress file offset compressed;
     offsets ← _read_offsets (mkClusterData file offset compressed buffer []);
     Ok (mkClusterData file offset compressed buffer offsets)).
Proof.
  unfold ClusterData_init, Block_unpack_from_file, seek. cbn [data pos].
  destruct (Z.ltb_spec (Z.of_nat (length before)) 0) as [ | _]; [lia | ].
  cbn [mbind outcome_bind].
  pose proof (read_fst (Stream (before ++ t :: rest) (Z.of_nat (length before)))
                (Z.of_nat (Struct_size CLUSTER)) ltac:(lia)) as Hf.
  destruct (read _ _) as [b1 s']. cbn [fst] in Hf.
  rewrite remaining_app in Hf.
  change (Z.to_nat (Z.of_nat (Struct_size CLUSTER))) with 1%nat in Hf.
  cbn [firstn] in Hf. rewrite take_0 in Hf. subst b1.
  unfold Block_unpack. cbn [CLUSTER Struct_unpack_from field_format format_size length].
  rewrite decide_False by lia. cbn [mbind outcome_bind firstn int_from_le foldr].
  replace (byte_val t + 256 * 0) with (byte_val t) by lia. reflexivity.
Qed.

(** The stream [_source_buffer] returns, and the body it shows. *)
Lemma _source_buffer_body (before rest body : list byte) (t : byte) (offsets : list Z)
    (buf : option (list byte)) :
  _decompress lzma_decompress (before ++ t :: rest) (Z.of_nat (length before))
    (bool_decide (byte_val t = 4)) = Ok buf →
  cluster_body_of lzma_decompress t rest = Ok body →
  ∃ s, _source_buffer (mkClusterData (before ++ t :: rest) (Z.of_nat (length before))
                         (bool_decide (byte_val t = 4)) buf offsets) = Ok s
       ∧ 0 ≤ pos s ∧ remaining s = body.
Proof.
  unfold _decompress, cluster_body_of, _source_buffer, seek. cbn [compressed cd_file cd_offset data pos].
  destruct (bool_decide (byte_val t = 4)).
  - destruct (Z.ltb_spec (Z.of_nat (length before) + 1) 0) as [ | _]; [lia | ].
    cbn [mbind outcome_bind]. unfold read. cbn [fst orb].
    change (-1 <? 0) with true. cbn [orb].
    replace (before ++ t :: rest) with ((before ++ [t]) ++ rest)
      by (rewrite <- app_assoc; reflexivity).
    rewrite (remaining_at (before ++ [t]) rest)
      by (rewrite length_app; simpl; lia).
    intros Hb Hbody. rewrite Hbody in Hb. cbn [mbind outcome_bind] in Hb.
    injection Hb as <-. cbn [buffer].
    exists (Stream body 0). change (0 <? 0) with false. cbn [pos].
    split; [reflexivity | ]. split; [lia | apply remaining_start].
  - intros _ [= <-].
    destruct (Z.ltb_spec (Z.of_nat (length before) + 1) 0) as [ | _]; [lia | ].
    eexists. split; [reflexivity | ]. cbn [pos]. split; [lia | ].
    replace (before ++ t :: rest) with ((before ++ [t]) ++ rest)
      by (rewrite <- app_assoc; reflexivity).
    apply remaining_at. rewrite length_app. simpl. lia.
Qed.

(** C5, as amended: the reader knows one compressionType, 4. A cluster with
    any other byte there, 1 or not, is read as uncompressed data: nothing
    is decompressed, and every blob read gives what it gives on the same
    file with the byte set to 1. No error for an unsupported compression
    exists. *)
Theorem cluster_type_not_4_read_as_raw (encoding : codec) (before rest : list byte)
    (t : byte) :
  byte_val t ≠ 4 →
  (∀ cluster_data,
     ClusterData_init lzma_decompress (before ++ t :: rest)
       (Z.of_nat (length before)) encoding = Ok cluster_data →
     compressed cluster_data = false ∧ buffer cluster_data = None)
  ∧ (∀ blob_index,
       cluster_read_blob lzma_decompress (before ++ t :: rest)
         (Z.of_nat (length before)) encoding blob_index
       = cluster_read_blob lzma_decompress (before ++ x01 :: rest)
           (Z.of_nat (length before)) encoding blob_index).
Proof.
  intros Ht.
  assert (H1 : byte_val x01 ≠ 4) by (vm_compute; discriminate).
  split.
  - intros cd. rewrite ClusterData_init_at. cbv zeta.
    rewrite bool_decide_eq_false_2 by exact Ht. cbn [_decompress mbind outcome_bind].
    intros Hb. apply bind_Ok in Hb as (offsets & _ & [= <-]). split; reflexivity.
  - intros blob_index. unfold cluster_read_blob. rewrite !ClusterData_init_at. cbv zeta.
    destruct (_source_buffer_body before rest rest t [] None) as (s & Hs & Hp & Hr).
    { rewrite bool_decide_eq_false_2 by exact Ht. reflexivity. }
    { unfold cluster_body_of. rewrite bool_decide_eq_false_2 by exact Ht. reflexivity. }
    destruct (_source_buffer_body before rest rest x01 [] None) as (s1 & Hs1 & Hp1 & Hr1).
    { rewrite bool_decide_eq_false_2 by exact H1. reflexivity. }
    { unfold cluster_body_of. rewrite bool_decide_eq_false_2 by exact H1. reflexivity. }
    rewrite !bool_decide_eq_false_2 in * by assumption.
    cbn [_decompress mbind outcome_bind].
    rewrite (_read_offsets_ext _ _ s s1 Hs Hs1 Hp Hp1) by congruence.
    destruct (_read_offsets _) as [offsets | | ] eqn:Hoff; cbn [mbind outcome_bind];
      try reflexivity.
    apply _read_offsets_nonneg in Hoff.
    apply (read_blob_ext _ _ s s1); try assumption; try reflexivity.
    congruence.
Qed.

Lemma _decompress_Ok (before rest body : list byte) (t : byte) :
  cluster_body_of lzma_decompress t rest = Ok body →
  ∃ buf, _decompress lzma_decompress (before ++ t :: rest) (Z.of_nat (length before))
           (bool_decide (byte_val t = 4)) = Ok buf.
Proof.
  unfold cluster_body_of, _decompress, seek. cbn [data pos].
  destruct (bool_decide (byte_val t = 4)); [ | eauto].
  destruct (Z.ltb_spec (Z.of_nat (length before) + 1) 0) as [ | _]; [lia | ].
  cbn [mbind outcome_bind]. unfold read. cbn [fst].
  change (-1 <? 0) with true. cbn [orb].
  replace (before ++ t :: rest) with ((before ++ [t]) ++ rest)
    by (rewrite <- app_assoc; reflexivity).
  rewrite (remaining_at (before ++ [t]) rest) by (rewrite length_app; simpl; lia).
  intros ->. cbn [mbind outcome_bind]. eauto.
Qed.

Lemma StronglySorted_lookup_lt (l : list Z) (i j : nat) (x y : Z) :
  StronglySorted Z.lt l → l !! i = Some x → l !! j = Some y → (i < j)%nat → x < y.
Proof.
  intros Hs. revert i j. induction Hs as [ | a l Hs IH Hall]; intros i j Hx Hy Hij.
  - discriminate.
  - destruct j as [ | j]; [lia | ]. destruct i as [ | i].
    + injection Hx as <-. rewrite Forall_forall in Hall. apply Hall.
      eapply list_elem_of_lookup_2. exact Hy.
    + apply (IH i j); [exact Hx | exact Hy | lia].
Qed.

(** The offsets [_read_offsets] stores for a body that starts with the
    table of [offsets], the first of which counts them. *)
Lemma _read_offsets_table (self : ClusterData) (s : stream) (offsets : list Z)
    (payload : list byte) (k : nat) :
  _source_buffer self = Ok s → 0 ≤ pos s →
  remaining s = offset_table offsets ++ payload →
  length offsets = S k →
  offsets !! 0%nat = Some (4 * (Z.of_nat k + 1)) →
  Forall (fun o => 0 ≤ o < 2 ^ 32) offsets →
  _read_offsets self = Ok offsets.
Proof.
  intros Hs Hp Hr Hlen H0 Hrange. unfold _read_offsets. rewrite Hs.
  cbn [mbind outcome_bind].
  destruct offsets as [ | o0 offsets]; [discriminate | ].
  injection H0 as ->. injection Hlen as Hlen.
  apply Forall_cons in Hrange as [Ho Hrange].
  pose proof (read_fst s 4 ltac:(lia)) as Hf.
  destruct (read_snd s 4 Hp ltac:(lia)) as (Hq & _ & Hr').
  destruct (read s 4) as [b4 s']. cbn [fst snd] in *.
  unfold offset_table in Hr. cbn [fmap list_fmap concat] in Hr.
  rewrite Hr, <- app_assoc in Hf, Hr'.
  replace (Z.to_nat 4) with (length (pack_uint 4 (4 * (Z.of_nat k + 1)))) in Hf, Hr'
    by (rewrite length_pack_uint; reflexivity).
  rewrite take_app_length in Hf. rewrite drop_app_length in Hr'.
  rewrite Hf, unpack_pack_uint by (change (256 ^ Z.of_nat 4) with (2 ^ 32); lia).
  cbn [mbind outcome_bind].
  replace (Z.to_nat (4 * (Z.of_nat k + 1) / 4 - 1)) with (length offsets).
  - rewrite (read_more_offsets_table offsets payload s' Hq Hr' Hrange). reflexivity.
  - rewrite Z.mul_comm, Z.div_mul by lia. lia.
Qed.

(** C4: a cluster body that starts with k + 1 strictly increasing offsets,
    the first of them 4 * (k + 1), and holds the bytes they delimit: the
    reader stores exactly these offsets; read_blob(i) returns the
    offset[i+1] - offset[i] bytes of the body from offset[i] on for every
    i < k, and raises the blob index error for every index from k on. The
    body is what follows the compressionType byte, decompressed when the
    byte is 4. *)
Theorem read_blob_of_offset_table (encoding : codec) (before rest body payload : list byte)
    (t : byte) (offsets : list Z) (k : nat) :
  cluster_body_of lzma_decompress t rest = Ok body →
  body = offset_table offsets ++ payload →
  length offsets = S k →
  offsets !! 0%nat = Some (4 * (Z.of_nat k + 1)) →
  StronglySorted Z.lt offsets →
  Forall (fun o => o < 2 ^ 32 ∧ o ≤ Z.of_nat (length body)) offsets →
  ∃ cluster_data,
    ClusterData_init lzma_decompress (before ++ t :: rest)
      (Z.of_nat (length before)) encoding = Ok cluster_data
    ∧ _offsets cluster_data = offsets
    ∧ (∀ i, (i < k)%nat →
         ∃ this next blob,
           offsets !! i = Some this ∧ offsets !! S i = Some next
           ∧ read_blob cluster_data (Z.of_nat i) = Ok blob
           ∧ Z.of_nat (length blob) = next - this
           ∧ blob = take (Z.to_nat (next - this)) (drop (Z.to_nat this) body))
    ∧ (∀ blob_index, Z.of_nat k ≤ blob_index →
         read_blob cluster_data blob_index = Raise (IOError blob_index)).
Proof.
  intros Hbody Htable Hlen H0 Hsorted Hbound.
  assert (Hrange : Forall (fun o => 0 ≤ o < 2 ^ 32) offsets).
  { rewrite Forall_forall in Hbound |- *. intros o Ho.
    split; [ | apply Hbound; exact Ho].
    apply list_elem_of_lookup_1 in Ho as [i Hi]. destruct i as [ | i].
    - rewrite H0 in Hi. injection Hi as <-. lia.
    - pose proof (StronglySorted_lookup_lt _ 0 (S i) _ _ Hsorted H0 Hi ltac:(lia)). lia. }
  destruct (_decompress_Ok before rest body t Hbody) as (buf & Hbuf).
  rewrite ClusterData_init_at. cbv zeta. rewrite Hbuf. cbn [mbind outcome_bind].
  destruct (_source_buffer_body before rest body t [] buf Hbuf Hbody) as (s0 & Hs0 & Hp0 & Hr0).
  rewrite (_read_offsets_table _ s0 offsets payload k Hs0 Hp0) by congruence.
  cbn [mbind outcome_bind]. eexists. split; [reflexivity | ].
  destruct (_source_buffer_body before rest body t offsets buf Hbuf Hbody) as (s & Hs & Hp & Hr).
  split; [reflexivity | ]. split.
  - intros i Hi.
    destruct (lookup_lt_is_Some_2 offsets i ltac:(lia)) as [this Hthis].
    destruct (lookup_lt_is_Some_2 offsets (S i) ltac:(lia)) as [next Hnext].
    pose proof (StronglySorted_lookup_lt _ i (S i) _ _ Hsorted Hthis Hnext ltac:(lia)) as Hlt.
    rewrite Forall_forall in Hrange, Hbound.
    pose proof (Hrange this (list_elem_of_lookup_2 _ _ _ Hthis)) as Hthis_range.
    pose proof (Hbound next (list_elem_of_lookup_2 _ _ _ Hnext)) as [_ Hnext_bound].
    exists this, next. eexists. split; [exact Hthis | ]. split; [exact Hnext | ].
    unfold read_blob. cbn [_offsets]. rewrite Hlen.
    destruct (Z.leb_spec (Z.of_nat (S k) - 1) (Z.of_nat i)) as [ | _]; [lia | ].
    rewrite Hs. cbn [mbind outcome_bind].
    rewrite (getitem_lookup offsets (Z.of_nat i + 1) next)
      by (try lia; replace (Z.to_nat (Z.of_nat i + 1)) with (S i) by lia; exact Hnext).
    rewrite (getitem_lookup offsets (Z.of_nat i) this)
      by (try lia; rewrite Nat2Z.id; exact Hthis).
    cbn [mbind outcome_bind compressed].
    assert (Hseek : seek_cur (bool_decide (byte_val t = 4)) s this
                    = Ok (Stream (data s) (pos s + this))).
    { unfold seek_cur, seek. destruct (bool_decide (byte_val t = 4)).
      - rewrite Z.max_r by lia. reflexivity.
      - destruct (Z.ltb_spec (pos s + this) 0) as [ | _]; [lia | reflexivity]. }
    rewrite Hseek. cbn [mbind outcome_bind]. unfold read_size.
    destruct (Z.ltb_spec (next - this) (-1)) as [ | _]; [lia | ].
    rewrite andb_false_r.
    rewrite read_fst by lia. destruct s as [d p]. cbn [data pos] in *.
    rewrite remaining_advance by lia. rewrite Hr.
    split; [reflexivity | ]. split; [ | reflexivity].
    rewrite length_take, length_drop. lia.
  - intros blob_index Hge. unfold read_blob. cbn [_offsets]. rewrite Hlen.
    destruct (Z.leb_spec (Z.of_nat (S k) - 1) blob_index) as [_ | ]; [reflexivity | lia].
Qed.

End Clusters.

Lemma cluster_type_not_4_read_as_raw_witness :
  (byte_val x02 ≠ 4)
  ∧ (∀ blob_index,
       cluster_read_blob no_lzma_streams cluster_of_type_2 0 codec_utf_8 blob_index
       = cluster_read_blob no_lzma_streams
           (x01 :: cluster_body [bytes_of "0123456789"; bytes_of "abcdefghijklmnopqrst"])
           0 codec_utf_8 blob_index).
Proof.
  assert (Ht : byte_val x02 ≠ 4) by (vm_compute; discriminate).
  split; [exact Ht | ].
  exact (proj2 (cluster_type_not_4_read_as_raw no_lzma_streams codec_utf_8 [] _ x02 Ht)).
Defined.

(** C5 as stated fails: a cluster that declares compressionType 2 is read
    without any error, its bytes taken as the uncompressed body. *)
Lemma cluster_of_type_2_is_read :
  cluster_read_blob no_lzma_streams cluster_of_type_2 0 codec_utf_8 0
  = Ok (bytes_of "0123456789")
  ∧ cluster_read_blob no_lzma_streams cluster_of_type_2 0 codec_utf_8 1
    = Ok (bytes_of "abcdefghijklmnopqrst").
Proof. split; vm_compute; reflexivity. Qed.


Lemma read_blob_of_offset_table_witness :
  ∃ cluster_data,
    ClusterData_init no_lzma_streams cluster_of_two_blobs 0 codec_utf_8 = Ok cluster_data
    ∧ _offsets cluster_data = [12; 22; 42]
    ∧ (∀ i, (i < 2)%nat →
         ∃ this next blob,
           [12; 22; 42] !! i = Some this ∧ [12; 22; 42] !! S i = Some next
           ∧ read_blob cluster_data (Z.of_nat i) = Ok blob
           ∧ Z.of_nat (length blob) = next - this
           ∧ blob = take (Z.to_nat (next - this))
                         (drop (Z.to_nat this)
                            (cluster_body [bytes_of "0123456789";
                                           bytes_of "abcdefghijklmnopqrst"])))
    ∧ (∀ blob_index, 2 ≤ blob_index →
         read_blob cluster_data blob_index = Raise (IOError blob_index)).
Proof.
  apply (read_blob_of_offset_table no_lzma_streams codec_utf_8 []
           (cluster_body [bytes_of "0123456789"; bytes_of "abcdefghijklmnopqrst"])
           (cluster_body [bytes_of "0123456789"; bytes_of "abcdefghijklmnopqrst"])
           (bytes_of "0123456789" ++ bytes_of "abcdefghijklmnopqrst")
           x01 [12; 22; 42] 2).
  - reflexivity.
  - vm_compute. reflexivity.
  - reflexivity.
  - reflexivity.
  - repeat (constructor; [repeat (constructor; try lia) | ]). constructor.
  - repeat (constructor; [vm_compute; split; [reflexivity | discriminate] | ]). constructor.
Defined.

(** ** Redirects *)

Section Redirects.

Variable lzma_decompress : list byte → outcome (list byte).

(** An index from which the chain of redirects reaches a cycle has a next
    index with the same property. *)
Lemma redirects_to_cycle_next (self : ZIMFile) (cycle i : Z) :
  tc (redirects self) cycle cycle →
  rtc (redirects self) i cycle →
  ∃ j, redirects self i j ∧ rtc (redirects self) j cycle.
Proof.
  intros Hcycle Hreach. inversion Hreach as [ | ? j ? Hstep Hrest]; subst.
  - inversion Hcycle as [? ? Hstep | ? j ? Hstep Hrest]; subst.
    + exists cycle. split; [exact Hstep | constructor].
    + exists j. split; [exact Hstep | apply tc_rtc; exact Hrest].
  - exists j. split; assumption.
Qed.

(** A chain of [n] redirects that ends at an Article Entry is followed to
    that entry whenever the interpreter allows more than [n] nested calls. *)
Lemma redirect_chain_followed (self : ZIMFile) (n : nat) (i j : Z) (depth : nat) :
  nsteps (redirects self) n i j →
  (n < depth)%nat →
  (∃ entry c b, read_directory_entry_by_index self j = Ok entry
                ∧ kind entry = ArticleFields c b) →
  _get_article_by_index lzma_decompress depth self i true
  = _get_article_by_index lzma_decompress 1 self j true.
Proof.
  intros Hsteps. revert depth. induction Hsteps as [i | n i i' j Hstep Hsteps IH];
    intros depth Hdepth Harticle.
  - destruct depth as [ | depth]; [lia | ].
    destruct Harticle as (entry & c & b0 & Hentry & Hkind).
    cbn [_get_article_by_index]. rewrite Hentry. cbn [mbind outcome_bind].
    rewrite Hkind. reflexivity.
  - destruct depth as [ | depth]; [lia | ].
    destruct Hstep as (entry & Hentry & Hkind).
    cbn [_get_article_by_index]. rewrite Hentry. cbn [mbind outcome_bind].
    rewrite Hkind. apply IH; [lia | exact Harticle].
Qed.

(** C6, as amended: [_get_article_by_index] has no guard against redirect
    cycles. When the redirects from index [i] lead into a cycle, every
    nested call finds one more redirect: whatever number of nested calls the
    interpreter allows is used up, and the call ends with the interpreter's
    RecursionError, never with an article and never with an error of the
    reader's own. *)
Theorem redirect_cycle_exhausts_recursion (self : ZIMFile) (i cycle : Z) :
  rtc (redirects self) i cycle →
  tc (redirects self) cycle cycle →
  ∀ depth, _get_article_by_index lzma_decompress depth self i true = Raise RecursionError.
Proof.
  intros Hreach Hcycle depth. revert i Hreach.
  induction depth as [ | depth IH]; intros i Hreach; [reflexivity | ].
  destruct (redirects_to_cycle_next self cycle i Hcycle Hreach)
    as (j & (entry & Hentry & Hkind) & Hj).
  cbn [_get_article_by_index]. rewrite Hentry. cbn [mbind outcome_bind].
  rewrite Hkind. apply IH. exact Hj.
Qed.

End Redirects.

Lemma opened_init :
  ZIMFile_init two_articles codec_utf_8 = Ok (opened two_articles)
  ∧ ZIMFile_init redirect_cycle codec_utf_8 = Ok (opened redirect_cycle)
  ∧ ZIMFile_init with_metadata codec_utf_8 = Ok (opened with_metadata)
  ∧ ZIMFile_init metadata_twice codec_utf_8 = Ok (opened metadata_twice).
Proof. repeat split; vm_compute; reflexivity. Qed.

Lemma redirect_cycle_redirects :
  redirects (opened redirect_cycle) 0 1 ∧ redirects (opened redirect_cycle) 1 0.
Proof.
  split; eexists; (split; [vm_compute; reflexivity | reflexivity]).
Defined.

Lemma redirect_cycle_exhausts_recursion_witness :
  rtc (redirects (opened redirect_cycle)) 0 0
  ∧ tc (redirects (opened redirect_cycle)) 0 0
  ∧ _get_article_by_index no_lzma_streams 50 (opened redirect_cycle) 0 true
    = Raise RecursionError.
Proof.
  assert (Hcycle : tc (redirects (opened redirect_cycle)) 0 0).
  { eapply tc_l; [exact (proj1 redirect_cycle_redirects) | ].
    apply tc_once. exact (proj2 redirect_cycle_redirects). }
  split; [constructor | ]. split; [exact Hcycle | ].
  apply (redirect_cycle_exhausts_recursion no_lzma_streams (opened redirect_cycle) 0 0).
  - constructor.
  - exact Hcycle.
Defined.

(** C6 as stated fails: in an archive whose entries 0 and 1 redirect to each
    other, the call on index 0 is not stopped by a guard of the reader after
    some bounded number of redirects; with 16 nested calls allowed, with 17
    or with the 1000 of CPython's default limit, it goes on until the
    interpreter refuses the next call. *)
Lemma redirect_cycle_not_guarded :
  _get_article_by_index no_lzma_streams 16 (opened redirect_cycle) 0 true
  = Raise RecursionError
  ∧ _get_article_by_index no_lzma_streams 17 (opened redirect_cycle) 0 true
    = Raise RecursionError
  ∧ _get_article_by_index no_lzma_streams 1000 (opened redirect_cycle) 0 true
    = Raise RecursionError.
Proof. repeat split; vm_compute; reflexivity. Qed.

(** ** Metadata *)

Section Metadata.

Variable lzma_decompress : list byte → outcome (list byte).
Variable str_lower : str → str.

(** The loop over entries that are all metadata: one insertion per entry,
    in the order of the visit. *)
Lemma metadata_loop_all (depth : nat) (self : ZIMFile) (indices rest : list Z)
    (entries : list Entry) (articles : list Article)
    (metadata0 : gmap str (option (list byte))) :
  Forall2 (fun i e => read_directory_entry_by_index self i = Ok e) indices entries →
  Forall (fun e => namespace e = [0x4D]) entries →
  Forall2 (fun i a => _get_article_by_index lzma_decompress depth self i true = Ok a)
          indices articles →
  metadata_loop lzma_decompress str_lower depth self (indices ++ rest) metadata0
  = metadata_loop lzma_decompress str_lower depth self rest
      (foldl (fun m ea => <[str_lower (url ea.1) := article_data ea.2]> m)
             metadata0 (zip entries articles)).
Proof.
  intros Hread. revert articles metadata0.
  induction Hread as [ | i e indices entries Hi Hread IH]; intros articles metadata0 Hm Harts.
  - inversion Harts. reflexivity.
  - inversion Harts as [ | ? a ? articles' Ha Harts']; subst.
    apply Forall_cons in Hm as [He Hm].
    cbn [app metadata_loop]. rewrite Hi. cbn [mbind outcome_bind].
    rewrite decide_True by exact He. rewrite Ha. cbn [mbind outcome_bind].
    rewrite (IH articles' _ Hm Harts'). reflexivity.
Qed.

(** Inserting from the last entry to the first builds the dict in which the
    first entry with a key gives its value. *)
Lemma foldl_insert_reverse (entries : list Entry) (articles : list Article) :
  length entries = length articles →
  foldl (fun m ea => <[str_lower (url ea.1) := article_data ea.2]> m)
        (∅ : gmap str (option (list byte))) (zip (reverse entries) (reverse articles))
  = list_to_map (zip (str_lower ∘ url <$> entries) (article_data <$> articles)).
Proof.
  revert articles. induction entries as [ | e entries IH]; intros [ | a articles] Hlen;
    try discriminate; [reflexivity | ].
  injection Hlen as Hlen.
  rewrite !reverse_cons, zip_with_app by (rewrite !length_reverse; exact Hlen).
  rewrite foldl_app. cbn [zip_with foldl fst snd]. rewrite (IH articles Hlen).
  reflexivity.
Qed.

Lemma list_to_map_lookup_first (keys : list str) (values : list (option (list byte)))
    (j : nat) (k : str) (v : option (list byte)) :
  keys !! j = Some k → values !! j = Some v →
  (∀ j' k', (j' < j)%nat → keys !! j' = Some k' → k' ≠ k) →
  (list_to_map (zip keys values) : gmap str (option (list byte))) !! k = Some v.
Proof.
  revert values j. induction keys as [ | k0 keys IH]; intros values j Hk Hv Hfirst;
    [discriminate | ].
  destruct values as [ | v0 values]; [discriminate | ].
  cbn [zip zip_with]. rewrite list_to_map_cons.
  destruct j as [ | j].
  - injection Hk as ->. injection Hv as ->. apply lookup_insert_eq.
  - rewrite lookup_insert_ne by (apply (Hfirst 0%nat k0); [lia | reflexivity]).
    apply (IH values j Hk Hv). intros j' k' Hj' Hk'.
    apply (Hfirst (S j') k'); [lia | exact Hk'].
Qed.

(** C7, as amended: [metadata] visits the directory from the last index
    down and stops at the first entry whose namespace is not M, so it takes
    in exactly the entries [run] at the tail of the directory that are all
    in namespace M, the entry before them (if any) not being in M. The dict
    it returns has the lowercased urls of these entries as its keys; each
    is mapped to the bytes of the article of its entry, and where several
    of the entries have the same lowercased url, to those of the one with
    the lowest index. *)
Theorem metadata_tail_run (depth : nat) (self : ZIMFile) (front run : list Entry)
    (articles : list Article) :
  read_directory self = Ok (front ++ run) →
  Forall (fun e => namespace e = [0x4D]) run →
  (∀ e, last front = Some e → namespace e ≠ [0x4D]) →
  for_each (fun i => _get_article_by_index lzma_decompress depth self i true)
           (seqZ (Z.of_nat (length front)) (Z.of_nat (length run))) = Ok articles →
  ∃ m, metadata lzma_decompress str_lower depth self = Ok m
       ∧ m = list_to_map (zip (str_lower ∘ url <$> run) (article_data <$> articles))
       ∧ (∀ k, is_Some (m !! k) ↔ ∃ e, e ∈ run ∧ str_lower (url e) = k)
       ∧ (∀ j e a, run !! j = Some e → articles !! j = Some a →
            (∀ j' e', (j' < j)%nat → run !! j' = Some e' →
                      str_lower (url e') ≠ str_lower (url e)) →
            m !! str_lower (url e) = Some (article_data a)).
Proof.
  intros Hdir Hrun Hfront Harts.
  apply for_each_Ok in Hdir. apply for_each_Ok in Harts.
  pose proof (Forall2_length _ _ _ Hdir) as Hn.
  pose proof (Forall2_length _ _ _ Harts) as Hlen.
  rewrite length_seqZ, length_app in Hn. rewrite length_seqZ in Hlen.
  assert (Hcount : seqZ 0 (articleCount (header_fields self))
                   = seqZ 0 (Z.of_nat (length front) + Z.of_nat (length run))).
  { unfold seqZ. do 2 f_equal. lia. }
  rewrite Hcount, seqZ_app in Hdir by lia. cbn [Z.add] in Hdir.
  apply Forall2_app_inv in Hdir as [Hdir_front Hdir_run];
    [ | rewrite length_seqZ; lia].
  eexists. split.
  - unfold metadata. rewrite Hcount, seqZ_app, reverse_app by lia. cbn [Z.add].
    rewrite (metadata_loop_all depth self _ _ (reverse run) (reverse articles)).
    + instantiate (1 := list_to_map (zip (str_lower ∘ url <$> run) (article_data <$> articles))).
      assert (Hstop : ∀ m, metadata_loop lzma_decompress str_lower depth self
                             (reverse (seqZ 0 (Z.of_nat (length front)))) m = Ok m).
      { intros m. destruct front as [ | e0 front' _] using rev_ind; [reflexivity | ].
        rewrite length_app in *. cbn [length] in *.
        replace (Z.of_nat (length front' + 1)) with (Z.of_nat (S (length front'))) by lia.
        rewrite seqZ_S, reverse_app. cbn [reverse rev_append app metadata_loop].
        rewrite Nat.add_1_r, seqZ_S in Hdir_front.
        apply Forall2_app_inv in Hdir_front as [_ Hlast];
          [ | rewrite length_seqZ; lia].
        inversion Hlast as [ | ? ? ? ? He0 _]; subst. rewrite He0.
        cbn [mbind outcome_bind].
        rewrite decide_False; [reflexivity | ].
        apply Hfront. rewrite last_snoc. reflexivity. }
      rewrite Hstop. f_equal. apply foldl_insert_reverse. lia.
    + apply Forall2_reverse. exact Hdir_run.
    + apply Forall_reverse. exact Hrun.
    + apply Forall2_reverse. exact Harts.
  - split; [reflexivity | ]. split.
    + intros k. rewrite <- elem_of_dom, dom_list_to_map_L, elem_of_list_to_set.
      rewrite fst_zip by (rewrite !length_fmap; lia).
      rewrite list_elem_of_fmap. split.
      * intros (e & -> & He). exists e. split; [exact He | reflexivity].
      * intros (e & He & <-). exists e. split; [reflexivity | exact He].
    + intros j e a He Ha Hfirst.
      apply (list_to_map_lookup_first _ _ j).
      * rewrite list_lookup_fmap, He. reflexivity.
      * rewrite list_lookup_fmap, Ha. reflexivity.
      * intros j' k' Hj' Hk'. rewrite list_lookup_fmap in Hk'.
        destruct (run !! j') as [e' | ] eqn:He'; [ | discriminate].
        injection Hk' as <-. apply (Hfirst j' e' Hj' He').
Qed.

End Metadata.

Lemma metadata_tail_run_witness :
  ∃ m, metadata no_lzma_streams ascii_lower 10 (opened with_metadata) = Ok m
       ∧ m !! text "language" = Some (Some (bytes_of "eng"))
       ∧ m !! text "title" = Some (Some (bytes_of "Wiki"))
       ∧ (∀ k, is_Some (m !! k) → k = text "language" ∨ k = text "title").
Proof.
  pose (home := mkEntry 0 0 (text "A") 0 (ArticleFields 0 0) (text "home") [] (Some 0)).
  pose (language :=
          mkEntry 1 0 (text "M") 0 (ArticleFields 0 1) (text "Language") [] (Some 1)).
  pose (title := mkEntry 1 0 (text "M") 0 (ArticleFields 0 2) (text "Title") [] (Some 2)).
  pose (plain := mimetype_name (text "text/plain")).
  destruct (metadata_tail_run no_lzma_streams ascii_lower 10 (opened with_metadata)
              [home] [language; title]
              [ mkArticle (Some (bytes_of "eng")) (text "M") plain;
                mkArticle (Some (bytes_of "Wiki")) (text "M") plain ])
    as (m & Hm & _ & Hdom & Hlookup).
  - vm_compute. reflexivity.
  - repeat constructor.
  - intros e [= <-]. vm_compute. discriminate.
  - vm_compute. reflexivity.
  - exists m. split; [exact Hm | ]. split; [ | split].
    + refine (Hlookup 0%nat language _ eq_refl eq_refl _).
      intros j' e' Hj'. lia.
    + refine (Hlookup 1%nat title _ eq_refl eq_refl _).
      intros j' e' Hj' He'. destruct j' as [ | j']; [ | lia].
      injection He' as <-. vm_compute. discriminate.
    + intros k Hk. apply Hdom in Hk as (e & He & <-).
      apply elem_of_cons in He as [-> | He]; [left; reflexivity | ].
      apply elem_of_cons in He as [-> | He]; [right; reflexivity | ].
      inversion He.
Defined.

(** C7 as stated fails where two metadata entries have the same lowercased
    url: the entry at index 2, M/title, is one of the entries taken in and
    its article is "wiki, again", but the key "title" is mapped to "Wiki",
    the article of M/Title at index 1. *)
Lemma metadata_twice_lowest_index_wins :
  read_directory_entry_by_index (opened metadata_twice) 2
  = Ok (mkEntry 1 0 (text "M") 0 (ArticleFields 0 2) (text "title") [] (Some 2))
  ∧ _get_article_by_index no_lzma_streams 10 (opened metadata_twice) 2 true
    = Ok (mkArticle (Some (bytes_of "wiki, again")) (text "M")
                    (mimetype_name (text "text/plain")))
  ∧ (m ← metadata no_lzma_streams ascii_lower 10 (opened metadata_twice);
     Ok (m !! ascii_lower (text "title")))
    = Ok (Some (Some (bytes_of "Wiki"))).
Proof. repeat split; vm_compute; reflexivity. Qed.

(** ** Searching and counting in strings *)

Lemma startswith_prefix (s sub : str) :
  startswith s sub = true ↔ ∃ after, s = sub ++ after.
Proof.
  revert s. induction sub as [ | x sub IH]; intros s.
  - destruct s; simpl; split; eauto.
  - destruct s as [ | y s]; cbn [startswith].
    + split; [discriminate | ]. intros (after & Heq). discriminate.
    + rewrite andb_true_iff, bool_decide_eq_true, IH. split.
      * intros (-> & after & ->). exists after. reflexivity.
      * intros (after & Heq). injection Heq as -> ->. eauto.
Qed.

Lemma substring_cons (sub s : str) (c : Z) :
  substring sub (c :: s) ↔ startswith (c :: s) sub = true ∨ substring sub s.
Proof.
  rewrite startswith_prefix. unfold substring. split.
  - intros (before & after & Heq). destruct before as [ | c' before].
    + left. exists after. exact Heq.
    + right. injection Heq as -> ->. eauto.
  - intros [(after & Heq) | (before & after & ->)].
    + exists [], after. exact Heq.
    + exists (c :: before), after. reflexivity.
Qed.

Lemma substring_nil (sub : str) : substring sub [] ↔ startswith [] sub = true.
Proof.
  rewrite startswith_prefix. unfold substring. split.
  - intros (before & after & Heq). destruct before; [ | discriminate]. eauto.
  - intros (after & Heq). exists [], after. exact Heq.
Qed.

(** [s.find(sub) > -1] says that [sub] occurs in [s]. *)
Lemma find_from_substring (i : Z) (s sub : str) :
  0 ≤ i → (-1 <? find_from i s sub) = true ↔ substring sub s.
Proof.
  revert i. induction s as [ | c s IH]; intros i Hi; cbn [find_from].
  - rewrite substring_nil. destruct (startswith [] sub).
    + split; [reflexivity | ]. intros _. apply Z.ltb_lt. lia.
    + split; discriminate.
  - rewrite substring_cons. destruct (startswith (c :: s) sub).
    + split; [auto | ]. intros _. apply Z.ltb_lt. lia.
    + rewrite IH by lia. split; [auto | ]. intros [ | ]; [discriminate | assumption].
Qed.

Lemma str_find_substring (s sub : str) :
  (-1 <? str_find s sub) = true ↔ substring sub s.
Proof. apply find_from_substring. lia. Qed.

Lemma substring_dec (sub s : str) : Decision (substring sub s).
Proof.
  destruct (-1 <? str_find s sub) eqn:Hfind.
  - left. apply str_find_substring. exact Hfind.
  - right. intros Hsub. apply str_find_substring in Hsub. congruence.
Defined.

(** [s.count(" ")] is the number of spaces of [s]. *)
Lemma str_count_spaces (s : str) :
  str_count s [0x20] = Z.of_nat (length (filter (fun c => c = 0x20) s)).
Proof.
  unfold str_count. rewrite decide_False by discriminate.
  induction s as [ | c s IH]; [reflexivity | ].
  cbn [count_from startswith length Nat.sub]. rewrite filter_cons.
  destruct s as [ | c' s']; cbn [startswith]; rewrite andb_true_r.
  - destruct (decide (c = 32)) as [-> | Hc].
    + reflexivity.
    + rewrite bool_decide_eq_false_2 by congruence. reflexivity.
  - destruct (decide (c = 32)) as [-> | Hc].
    + rewrite bool_decide_eq_true_2 by reflexivity. rewrite IH.
      cbn [length]. lia.
    + rewrite bool_decide_eq_false_2 by congruence. exact IH.
Qed.

(** ** The ranker *)

Lemma Forall2_exists_Ok {A B : Type} (f : A → outcome B) (l : list A) :
  (∀ x, x ∈ l → ∃ y, f x = Ok y) → ∃ ys, Forall2 (fun x y => f x = Ok y) l ys.
Proof.
  induction l as [ | x l IH]; intros Hall.
  - exists []. constructor.
  - destruct (Hall x) as (y & Hy); [left | ].
    destruct IH as (ys & Hys); [intros x' Hx'; apply Hall; right; exact Hx' | ].
    exists (y :: ys). constructor; assumption.
Qed.

Section Ranking.

Context {F : Type} `{PyFloat F}.
Variable hash : str → Z.
Variable str_lower : str → str.

(** The tally of the documents [term] occurs in. *)
Lemma tally_substring `{∀ sub s, Decision (substring sub s)} (term : str)
    (corpus : list str) :
  tally term corpus = Z.of_nat (length (filter (substring term) corpus)).
Proof.
  unfold tally.
  assert (Hacc : ∀ frequency,
            foldl (fun frequency document =>
                     frequency + (if -1 <? str_find document term then 1 else 0))
                  frequency corpus
            = frequency + Z.of_nat (length (filter (substring term) corpus))).
  { induction corpus as [ | document corpus IH]; intros frequency.
    - simpl. lia.
    - cbn [foldl]. rewrite IH, filter_cons.
      destruct (decide (substring term document)) as [Hsub | Hsub].
      + apply str_find_substring in Hsub. rewrite Hsub. cbn [length]. lia.
      + destruct (-1 <? str_find document term) eqn:Hfind.
        * apply str_find_substring in Hfind. contradiction.
        * lia. }
  rewrite Hacc. lia.
Qed.

(** A dict built from (hash(doc), value(doc)) pairs gives every document
    its own value when no two documents of the corpus share a hash. *)
Lemma dict_of_pairs_lookup (value : str → Z) (corpus : list str) (document : str) :
  (∀ d1 d2, d1 ∈ corpus → d2 ∈ corpus → hash d1 = hash d2 → d1 = d2) →
  document ∈ corpus →
  dict_of_pairs ((fun doc => (hash doc, value doc)) <$> corpus) !! hash document
  = Some (value document).
Proof.
  unfold dict_of_pairs.
  induction corpus as [ | last corpus IH] using rev_ind; intros Hinj Hin.
  - inversion Hin.
  - rewrite fmap_app, foldl_app. cbn [fmap list_fmap foldl fst snd].
    destruct (decide (hash last = hash document)) as [Heq | Hne].
    + rewrite (Hinj last document);
        [apply lookup_insert_eq | | exact Hin | exact Heq].
      apply elem_of_app. right. apply list_elem_of_singleton. reflexivity.
    + rewrite lookup_insert_ne by exact Hne. apply IH.
      * intros d1 d2 H1 H2. apply Hinj; apply elem_of_app; left; assumption.
      * apply elem_of_app in Hin as [Hin | Hin]; [exact Hin | ].
        apply list_elem_of_singleton in Hin. congruence.
Qed.

(** [calculate_scores] on a corpus that is not empty: the statistics of the
    corpus, then one score per document. *)
Lemma calculate_scores_unfold (self : BM25) (query corpus : list str) :
  corpus ≠ [] →
  calculate_scores hash str_lower self query corpus
  = for_each
      (document_score hash self
         (num_words_of hash (str_lower <$> corpus))
         (int_quotient (sum_values (num_words_of hash (str_lower <$> corpus)))
                       (Z.of_nat (length corpus)))
         (Z.of_nat (length corpus))
         (query_terms_of (str_lower <$> query) (str_lower <$> corpus)))
      (str_lower <$> corpus).
Proof.
  intros Hne. unfold calculate_scores, int_truediv. rewrite length_fmap.
  destruct (Z.eqb_spec (Z.of_nat (length corpus)) 0) as [H0 | _]; [ | reflexivity].
  destruct corpus; [contradiction | simpl in H0; lia].
Qed.

(** C9: in [calculate_scores], on a corpus that is not empty, both the query
    and the corpus are lowercased first; the frequency that goes with a
    term is the number of documents that have the term as a substring, and
    the number of words that goes with a document is the number of its
    spaces plus one. The dict of these numbers is keyed by [hash(doc)]:
    the documents of the corpus are taken to have hashes of their own. *)
Theorem calculate_scores_statistics `{∀ sub s, Decision (substring sub s)}
    (self : BM25) (query corpus : list str) :
  corpus ≠ [] →
  (∀ d1 d2, d1 ∈ str_lower <$> corpus → d2 ∈ str_lower <$> corpus →
            hash d1 = hash d2 → d1 = d2) →
  ∃ num_words query_terms avg_doc_len,
    calculate_scores hash str_lower self query corpus
    = for_each (document_score hash self num_words avg_doc_len
                  (Z.of_nat (length corpus)) query_terms)
               (str_lower <$> corpus)
    ∧ query_terms
      = (fun term =>
           (term, Z.of_nat (length (filter (substring term) (str_lower <$> corpus)))))
        <$> (str_lower <$> query)
    ∧ (∀ document, document ∈ str_lower <$> corpus →
         num_words !! hash document
         = Some (Z.of_nat (length (filter (fun c => c = 0x20) document)) + 1)).
Proof.
  intros Hne Hinj. eexists _, _, _. split; [ | split].
  - apply calculate_scores_unfold. exact Hne.
  - unfold query_terms_of. apply list_fmap_ext. intros _ term _.
    rewrite tally_substring. reflexivity.
  - intros document Hin. unfold num_words_of.
    rewrite (dict_of_pairs_lookup (fun doc => str_count doc [0x20] + 1)) by assumption.
    rewrite str_count_spaces. reflexivity.
Qed.

(** C10: on a corpus that is not empty, [calculate_scores] returns a list
    exactly when every document has a score, and the list then has one
    score per document, the i-th being the score of the i-th document of
    the corpus (lowercased), computed with the statistics of the whole
    corpus. *)
Theorem calculate_scores_in_corpus_order (self : BM25) (query corpus : list str) :
  corpus ≠ [] →
  let corpus' := str_lower <$> corpus in
  let num_words := num_words_of hash corpus' in
  let avg_doc_len :=
    int_quotient (sum_values num_words) (Z.of_nat (length corpus)) in
  let query_terms := query_terms_of (str_lower <$> query) corpus' in
  let score document :=
    document_score hash self num_words avg_doc_len (Z.of_nat (length corpus))
                   query_terms (str_lower document) in
  (∀ scores,
     calculate_scores hash str_lower self query corpus = Ok scores
     ↔ Forall2 (fun document s => score document = Ok s) corpus scores)
  ∧ (∀ scores,
       calculate_scores hash str_lower self query corpus = Ok scores →
       length scores = length corpus
       ∧ ∀ i document, corpus !! i = Some document →
           ∃ s, scores !! i = Some s ∧ score document = Ok s)
  ∧ ((∀ document, document ∈ corpus → ∃ s, score document = Ok s) →
     ∃ scores, calculate_scores hash str_lower self query corpus = Ok scores).
Proof.
  intros Hne corpus' num_words avg_doc_len query_terms score.
  assert (Hiff : ∀ scores,
            calculate_scores hash str_lower self query corpus = Ok scores
            ↔ Forall2 (fun document s => score document = Ok s) corpus scores).
  { intros scores. rewrite (calculate_scores_unfold self query corpus Hne).
    rewrite for_each_Ok. fold corpus' num_words avg_doc_len query_terms.
    unfold corpus'. rewrite Forall2_fmap_l. reflexivity. }
  split; [exact Hiff | ]. split.
  - intros scores Hscores. apply Hiff in Hscores.
    split; [symmetry; eapply Forall2_length; exact Hscores | ].
    intros i document Hi.
    destruct (Forall2_lookup_l _ _ _ _ _ Hscores Hi) as (s & Hs & Hscore).
    exists s. split; assumption.
  - intros Hall.
    assert (Hex : ∃ scores, Forall2 (fun document s => score document = Ok s) corpus scores)
      by (apply Forall2_exists_Ok; exact Hall).
    destruct Hex as (scores & Hscores). exists scores. apply Hiff. exact Hscores.
Qed.

End Ranking.

Lemma example_corpus_hashes (d1 d2 : str) :
  d1 ∈ ascii_lower <$> example_corpus → d2 ∈ ascii_lower <$> example_corpus →
  string_hash d1 = string_hash d2 → d1 = d2.
Proof.
  intros H1 H2 Hh.
  repeat (apply elem_of_cons in H1 as [-> | H1]);
    [ | | | inversion H1];
    (repeat (apply elem_of_cons in H2 as [-> | H2]);
     [ | | | inversion H2]);
    first [reflexivity | vm_compute in Hh; discriminate Hh].
Defined.

Lemma calculate_scores_statistics_witness :
  ∃ num_words query_terms avg_doc_len,
    calculate_scores string_hash ascii_lower BM25_default example_query example_corpus
    = for_each (document_score string_hash BM25_default num_words avg_doc_len 3 query_terms)
               (ascii_lower <$> example_corpus)
    ∧ query_terms = [(text "quick", 2); (text "brown", 1)]
    ∧ num_words !! string_hash (text "the quick brown fox") = Some 4
    ∧ num_words !! string_hash (text "quickly") = Some 1.
Proof.
  destruct (calculate_scores_statistics string_hash ascii_lower (H0 := substring_dec)
              BM25_default example_query example_corpus)
    as (num_words & query_terms & avg_doc_len & Hscores & Hterms & Hwords).
  - discriminate.
  - exact example_corpus_hashes.
  - exists num_words, query_terms, avg_doc_len.
    split; [exact Hscores | ]. split; [rewrite Hterms; vm_compute; reflexivity | ].
    split.
    + rewrite (Hwords (text "the quick brown fox")); [vm_compute; reflexivity | ].
      vm_compute. left.
    + rewrite (Hwords (text "quickly")); [vm_compute; reflexivity | ].
      vm_compute. right. right. left.
Defined.

Lemma calculate_scores_in_corpus_order_witness :
  ∃ scores,
    calculate_scores string_hash ascii_lower BM25_default example_query example_corpus
    = Ok scores
    ∧ length scores = 3%nat.
Proof.
  destruct (calculate_scores_in_corpus_order string_hash ascii_lower BM25_default
              example_query example_corpus) as (_ & Hlength & Hreturns).
  - discriminate.
  - destruct Hreturns as (scores & Hscores).
    + intros document Hin.
      repeat (apply elem_of_cons in Hin as [-> | Hin]);
        [ | | | inversion Hin]; eexists; vm_compute; reflexivity.
    + exists scores. split; [exact Hscores | ].
      apply (Hlength scores Hscores).
Defined.

(** ** Lookup by url *)

(** *** The order of [str] *)

Lemma str_ltb_irrefl (a : str) : str_ltb a a = false.
Proof.
  induction a as [ | x a IH]; [reflexivity | ].
  cbn [str_ltb]. rewrite Z.ltb_irrefl. exact IH.
Qed.

Lemma str_ltb_trans (a b c : str) :
  str_ltb a b = true → str_ltb b c = true → str_ltb a c = true.
Proof.
  revert b c. induction a as [ | x a IH]; intros [ | y b] [ | z c]; cbn [str_ltb];
    try discriminate; try reflexivity.
  destruct (Z.ltb_spec x y), (Z.ltb_spec y x), (Z.ltb_spec y z), (Z.ltb_spec z y),
    (Z.ltb_spec x z), (Z.ltb_spec z x); try discriminate; try reflexivity; try lia.
  apply IH.
Qed.

Lemma str_ltb_trichotomy (a b : str) :
  str_ltb a b = true ∨ a = b ∨ str_ltb b a = true.
Proof.
  revert b. induction a as [ | x a IH]; intros [ | y b]; cbn [str_ltb]; auto.
  destruct (Z.ltb_spec x y), (Z.ltb_spec y x); auto; try lia.
  assert (x = y) as -> by lia.
  destruct (IH b) as [ | [-> | ]]; auto.
Qed.

Lemma str_ltb_asym (a b : str) : str_ltb a b = true → str_ltb b a = false.
Proof.
  intros Hab. destruct (str_ltb b a) eqn:Hba; [ | reflexivity].
  pose proof (str_ltb_trans a b a Hab Hba) as Haa.
  rewrite str_ltb_irrefl in Haa. discriminate.
Qed.

(** *** The rounds of the binary search *)

(** The loop ends by itself within [end_ - front + 1] rounds: with that
    many rounds or more, the number of rounds does not matter. *)
Lemma binary_search_rounds (self : ZIMFile) (title_ : str) (rounds1 rounds2 : nat)
    (front end_ middle : Z) :
  end_ - front + 1 ≤ Z.of_nat rounds1 → end_ - front + 1 ≤ Z.of_nat rounds2 →
  binary_search_loop self title_ rounds1 front end_ middle
  = binary_search_loop self title_ rounds2 front end_ middle.
Proof.
  revert rounds2 front end_ middle.
  induction rounds1 as [ | rounds1 IH]; intros rounds2 front end_ middle H1 H2.
  - destruct rounds2 as [ | rounds2]; [reflexivity | ].
    cbn [binary_search_loop]. rewrite bool_decide_eq_false_2 by lia. reflexivity.
  - cbn [binary_search_loop].
    destruct (bool_decide_reflect (front ≤ end_)) as [Hle | Hgt].
    + destruct rounds2 as [ | rounds2]; [lia | ].
      cbn [binary_search_loop]. rewrite bool_decide_eq_true_2 by exact Hle.
      assert (Hmid : front ≤ (front + end_) / 2 ≤ end_)
        by (split; [apply Z.div_le_lower_bound | apply Z.div_le_upper_bound]; lia).
      destruct (read_directory_entry_by_index self _) as [entry | e | ]; try reflexivity.
      destruct (decide _); [reflexivity | ].
      destruct (str_ltb _ _).
      * rewrite (IH rounds2) by lia. reflexivity.
      * rewrite (IH rounds2) by lia. reflexivity.
    + destruct rounds2 as [ | rounds2]; [reflexivity | ].
      cbn [binary_search_loop]. rewrite bool_decide_eq_false_2 by exact Hgt. reflexivity.
Qed.

(** *** The binary search on a sorted directory *)

Section Search.

Variable self : ZIMFile.
Variable entries : list Entry.

Hypothesis directory : read_directory self = Ok entries.

Hypothesis sorted :
  StronglySorted (fun a b => str_ltb a b = true) (entry_key <$> entries).

Let n : Z := articleCount (header_fields self).

Lemma directory_length : Z.to_nat n = length entries.
Proof.
  pose proof directory as Hdir. apply for_each_Ok, Forall2_length in Hdir.
  rewrite length_seqZ in Hdir. exact Hdir.
Qed.

Lemma directory_lookup (m : Z) :
  0 ≤ m < n →
  ∃ entry, entries !! Z.to_nat m = Some entry
           ∧ read_directory_entry_by_index self m = Ok entry.
Proof.
  intros Hm. pose proof directory as Hdir. apply for_each_Ok in Hdir.
  assert (Hi : seqZ 0 n !! Z.to_nat m = Some m).
  { rewrite lookup_seqZ. split; lia. }
  destruct (Forall2_lookup_l _ _ _ _ _ Hdir Hi) as (entry & Hentry & Hread).
  exists entry. split; assumption.
Qed.

Lemma sorted_keys (i j : nat) (a b : Entry) :
  entries !! i = Some a → entries !! j = Some b → (i < j)%nat →
  str_ltb (entry_key a) (entry_key b) = true.
Proof.
  intros Ha Hb Hij.
  assert (Hgen : ∀ (l : list str) (i j : nat) (x y : str),
            StronglySorted (fun a b => str_ltb a b = true) l →
            l !! i = Some x → l !! j = Some y → (i < j)%nat → str_ltb x y = true).
  { clear. intros l i j x y Hs. revert i j.
    induction Hs as [ | k l Hs IH Hall]; intros i j Hx Hy Hij; [discriminate | ].
    destruct j as [ | j]; [lia | ]. destruct i as [ | i].
    - injection Hx as <-. rewrite Forall_forall in Hall. apply Hall.
      eapply list_elem_of_lookup_2. exact Hy.
    - apply (IH i j); [exact Hx | exact Hy | lia]. }
  apply (Hgen (entry_key <$> entries) i j); [exact sorted | | | exact Hij].
  - rewrite list_lookup_fmap, Ha. reflexivity.
  - rewrite list_lookup_fmap, Hb. reflexivity.
Qed.

(** Equal keys are at the same index. *)
Lemma sorted_keys_unique (i j : nat) (a b : Entry) :
  entries !! i = Some a → entries !! j = Some b →
  entry_key a = entry_key b → i = j.
Proof.
  intros Ha Hb Hkey.
  destruct (Nat.lt_total i j) as [Hlt | [Heq | Hgt]]; [ | exact Heq | ].
  - pose proof (sorted_keys i j a b Ha Hb Hlt) as Hab.
    rewrite Hkey, str_ltb_irrefl in Hab. discriminate.
  - pose proof (sorted_keys j i b a Hb Ha Hgt) as Hba.
    rewrite Hkey, str_ltb_irrefl in Hba. discriminate.
Qed.

(** The loop on a sorted directory that has a key not below [title_]:
    every probe is an index of the directory; the loop ends with the index
    of [title_], or without one when no entry has this key. *)
Lemma binary_search_loop_sorted (title_ : str) (rounds : nat) (front end_ middle : Z)
    (j0 : nat) (entry0 : Entry) :
  search_bounds entries n title_ front end_ →
  (end_ - front + 1 ≤ Z.of_nat rounds) →
  entries !! j0 = Some entry0 → str_ltb (entry_key entry0) title_ = false →
  let '(probes, r) := binary_search_loop self title_ rounds front end_ middle in
  Forall (fun p => 0 ≤ p < n) probes
  ∧ ((∃ i entry, r = Ok (true, Z.of_nat i) ∧ entries !! i = Some entry
                 ∧ entry_key entry = title_)
     ∨ ((∃ m, r = Ok (false, m)) ∧ ∀ entry, entry ∈ entries → entry_key entry ≠ title_)).
Proof.
  intros Hbounds Hrounds Hj0 Hge.
  pose proof (lookup_lt_Some _ _ _ Hj0) as Hj0n. rewrite <- directory_length in Hj0n.
  assert (Hexit : ∀ front end_, search_bounds entries n title_ front end_ → end_ < front →
            ∀ entry, entry ∈ entries → entry_key entry ≠ title_).
  { clear front end_ Hbounds Hrounds.
    intros front end_ (_ & _ & Hlow & Hhigh) Hcross entry Hin Hkey.
    apply list_elem_of_lookup_1 in Hin as [j Hj].
    destruct (Z.lt_ge_cases (Z.of_nat j) front) as [Hlt | Hge'].
    - pose proof (Hlow j entry Hlt Hj) as Hcmp.
      rewrite Hkey, str_ltb_irrefl in Hcmp. discriminate.
    - pose proof (Hhigh j entry ltac:(lia) Hj) as Hcmp.
      rewrite Hkey, str_ltb_irrefl in Hcmp. discriminate. }
  revert front end_ middle Hbounds Hrounds.
  induction rounds as [ | rounds IH]; intros front end_ middle Hbounds Hrounds.
  - cbn [binary_search_loop]. split; [constructor | ]. right.
    split; [eauto | ]. apply (Hexit front end_ Hbounds). lia.
  - cbn [binary_search_loop].
    destruct (bool_decide_reflect (front ≤ end_)) as [Hle | Hgt]; cycle 1.
    { split; [constructor | ]. right. split; [eauto | ].
      apply (Hexit front end_ Hbounds). lia. }
    destruct Hbounds as (Hfront & Hend & Hlow & Hhigh).
    assert (Hj0front : front ≤ Z.of_nat j0).
    { destruct (Z.lt_ge_cases (Z.of_nat j0) front) as [Hlt | ]; [ | lia].
      rewrite (Hlow j0 entry0 Hlt Hj0) in Hge. discriminate. }
    assert (Hmid : front ≤ (front + end_) / 2 ≤ end_)
      by (split; [apply Z.div_le_lower_bound | apply Z.div_le_upper_bound]; lia).
    assert (Hmidn : (front + end_) / 2 < n)
      by (apply Z.div_lt_upper_bound; lia).
    destruct (directory_lookup ((front + end_) / 2) ltac:(lia)) as (entry & Hentry & Hread).
    rewrite Hread. fold (entry_key entry).
    destruct (decide (entry_key entry = title_)) as [Hfound | Hother].
    { split; [repeat constructor; lia | ]. left.
      exists (Z.to_nat ((front + end_) / 2)), entry.
      rewrite Z2Nat.id by lia. auto. }
    destruct (str_ltb (entry_key entry) title_) eqn:Hcmp.
    + specialize (IH ((front + end_) / 2 + 1) end_ ((front + end_) / 2)).
      destruct (binary_search_loop self title_ rounds _ _ _) as [probes r].
      destruct IH as [Hprobes Hr]; [ | lia | ].
      * split; [lia | ]. split; [lia | ]. split; [ | exact Hhigh].
        intros j e Hj He.
        destruct (Z.eq_dec (Z.of_nat j) ((front + end_) / 2)) as [Heq | Hne].
        -- rewrite <- Heq, Nat2Z.id in Hentry. congruence.
        -- apply (str_ltb_trans _ (entry_key entry)); [ | exact Hcmp].
           apply (sorted_keys j (Z.to_nat ((front + end_) / 2))); [exact He | exact Hentry | lia].
      * split; [constructor; [lia | exact Hprobes] | exact Hr].
    + assert (Habove : str_ltb title_ (entry_key entry) = true).
      { destruct (str_ltb_trichotomy (entry_key entry) title_) as [Hlt | [Heq | Hgt']];
          [congruence | contradiction | exact Hgt']. }
      specialize (IH front ((front + end_) / 2 - 1) ((front + end_) / 2)).
      destruct (binary_search_loop self title_ rounds _ _ _) as [probes r].
      destruct IH as [Hprobes Hr]; [ | lia | ].
      * split; [lia | ]. split; [lia | ]. split; [exact Hlow | ].
        intros j e Hj He.
        destruct (Z.eq_dec (Z.of_nat j) ((front + end_) / 2)) as [Heq | Hne].
        -- rewrite <- Heq, Nat2Z.id in Hentry. congruence.
        -- apply (str_ltb_trans _ (entry_key entry)); [exact Habove | ].
           apply (sorted_keys (Z.to_nat ((front + end_) / 2)) j); [exact Hentry | exact He | lia].
      * split; [constructor; [lia | exact Hprobes] | exact Hr].
Qed.


Lemma search_bounds_start (title_ : str) : search_bounds entries n title_ 0 n.
Proof.
  split; [lia | ]. split; [lia | ]. split.
  - intros j entry Hj. lia.
  - intros j entry Hj Hentry. apply lookup_lt_Some in Hentry.
    rewrite <- directory_length in Hentry. lia.
Qed.

Lemma binary_search_found (namespace_ url_ : str) (i : nat) (entry : Entry) :
  entries !! i = Some entry →
  full_url namespace_ url_ = entry_key entry →
  _get_entry_by_url self namespace_ url_ false = Ok (Some entry, Some (Z.of_nat i))
  ∧ Forall (fun p => 0 ≤ p < n) (binary_search_probes self namespace_ url_).
Proof.
  intros Hentry Hkey.
  pose proof (binary_search_loop_sorted (full_url namespace_ url_)
                (Z.to_nat (n - 0 + 1)) 0 n 0 i entry
                (search_bounds_start _) ltac:(lia) Hentry) as Hloop.
  rewrite Hkey, str_ltb_irrefl in Hloop. specialize (Hloop eq_refl).
  unfold _get_entry_by_url, binary_search_probes, len. fold n. rewrite Hkey.
  destruct (binary_search_loop self (entry_key entry) _ 0 n 0) as [probes r].
  destruct Hloop as [Hprobes [(i' & entry' & -> & Hentry' & Hkey') | [_ Hnone]]].
  - cbn [fst snd mbind outcome_bind]. split; [ | exact Hprobes].
    pose proof (sorted_keys_unique i' i entry' entry Hentry' Hentry Hkey') as ->.
    assert (entry' = entry) as -> by congruence.
    pose proof (lookup_lt_Some _ _ _ Hentry) as Hi. rewrite <- directory_length in Hi.
    destruct (directory_lookup (Z.of_nat i) ltac:(lia)) as (entry'' & Hlookup & Hread).
    rewrite Nat2Z.id in Hlookup. rewrite Hread. cbn [mbind outcome_bind]. congruence.
  - exfalso. apply (Hnone entry); [ | reflexivity].
    eapply list_elem_of_lookup_2. exact Hentry.
Qed.

(** On a sorted directory, the binary search for the key of the entry at
    index [i] returns that entry and [i], and every index it probes is an
    index of the directory. *)
Theorem binary_search_finds (namespace_ url_ : str) (i : nat) (entry : Entry) :
  entries !! i = Some entry →
  full_url namespace_ url_ = entry_key entry →
  _get_entry_by_url self namespace_ url_ false = Ok (Some entry, Some (Z.of_nat i))
  ∧ Forall (fun p => 0 ≤ p < n) (binary_search_probes self namespace_ url_).
Proof. exact (binary_search_found namespace_ url_ i entry). Qed.

(** On a sorted directory, the binary search for a key that no entry has
    and that is not above every key returns (None, None), and every index
    it probes is an index of the directory. *)
Theorem binary_search_misses (namespace_ url_ : str) (j0 : nat) (entry0 : Entry) :
  (∀ entry, entry ∈ entries → entry_key entry ≠ full_url namespace_ url_) →
  entries !! j0 = Some entry0 →
  str_ltb (entry_key entry0) (full_url namespace_ url_) = false →
  _get_entry_by_url self namespace_ url_ false = Ok (None, None)
  ∧ Forall (fun p => 0 ≤ p < n) (binary_search_probes self namespace_ url_).
Proof.
  intros Habsent Hentry0 Hge.
  pose proof (binary_search_loop_sorted (full_url namespace_ url_)
                (Z.to_nat (n - 0 + 1)) 0 n 0 j0 entry0
                (search_bounds_start _) ltac:(lia) Hentry0 Hge) as Hloop.
  unfold _get_entry_by_url, binary_search_probes, len. fold n.
  destruct (binary_search_loop self (full_url namespace_ url_) _ 0 n 0) as [probes r].
  destruct Hloop as [Hprobes [(i' & entry' & -> & Hentry' & Hkey') | [(m & ->) _]]].
  - exfalso. apply (Habsent entry'); [ | exact Hkey'].
    eapply list_elem_of_lookup_2. exact Hentry'.
  - cbn [fst snd mbind outcome_bind]. split; [reflexivity | exact Hprobes].
Qed.

(** With [end_] at articleCount and every key below [title_], the loop
    reaches the index articleCount. *)
Lemma binary_search_loop_past_end (title_ : str) (rounds : nat) (front middle : Z) :
  (∀ entry, entry ∈ entries → str_ltb (entry_key entry) title_ = true) →
  0 ≤ front ≤ n → n - front + 1 ≤ Z.of_nat rounds →
  n ∈ fst (binary_search_loop self title_ rounds front n middle).
Proof.
  intros Hbelow. revert front middle.
  induction rounds as [ | rounds IH]; intros front middle Hfront Hrounds; [lia | ].
  cbn [binary_search_loop]. rewrite bool_decide_eq_true_2 by lia.
  assert (Hmid : front ≤ (front + n) / 2 ≤ n)
    by (split; [apply Z.div_le_lower_bound | apply Z.div_le_upper_bound]; lia).
  destruct (Z.eq_dec ((front + n) / 2) n) as [Heq | Hne].
  - rewrite Heq.
    destruct (read_directory_entry_by_index self n) as [entry | e | ];
      [ | left | left].
    destruct (decide _); [left | ].
    destruct (if str_ltb _ _ then _ else _) as [probes r]. left.
  - destruct (directory_lookup ((front + n) / 2) ltac:(lia)) as (entry & Hentry & Hread).
    rewrite Hread. fold (entry_key entry).
    pose proof (Hbelow entry (list_elem_of_lookup_2 _ _ _ Hentry)) as Hcmp.
    rewrite decide_False
      by (intros Heq; rewrite Heq, str_ltb_irrefl in Hcmp; discriminate).
    rewrite Hcmp.
    specialize (IH ((front + n) / 2 + 1) ((front + n) / 2) ltac:(lia) ltac:(lia)).
    destruct (binary_search_loop self title_ rounds _ n _) as [probes r].
    right. exact IH.
Qed.

(** The binary search for a key above every key of the directory (any key,
    in an empty directory) probes the index articleCount, which is not an
    index of the directory. *)
Theorem binary_search_probes_past_end (namespace_ url_ : str) :
  0 ≤ n →
  (∀ entry, entry ∈ entries →
     str_ltb (entry_key entry) (full_url namespace_ url_) = true) →
  n ∈ binary_search_probes self namespace_ url_.
Proof.
  intros Hn Hbelow. unfold binary_search_probes, len. fold n.
  apply binary_search_loop_past_end; [exact Hbelow | lia | lia].
Qed.

(** The linear scan over the indices [start] to [start + length rest - 1],
    whose entries are [rest]. *)
Lemma linear_search_scan (namespace_ url_ : str) (start : Z) (before rest : list Entry) :
  entries = before ++ rest → start = Z.of_nat (length before) →
  linear_search self namespace_ url_ (seqZ start (Z.of_nat (length rest)))
  = match list_find (fun entry => url entry = url_ ∧ namespace entry = namespace_) rest with
    | Some (k, entry) => Ok (Some entry, Some (start + Z.of_nat k))
    | None => Ok (None, None)
    end.
Proof.
  revert start before. induction rest as [ | entry rest IH]; intros start before Heq Hstart.
  - reflexivity.
  - cbn [length]. rewrite Nat2Z.inj_succ, seqZ_cons by lia.
    cbn [linear_search list_find].
    assert (Hn : start < n).
    { pose proof directory_length as Hlen. rewrite Heq, length_app in Hlen.
      cbn [length] in Hlen. lia. }
    destruct (directory_lookup start ltac:(lia)) as (entry' & Hlookup & Hread).
    rewrite Hstart, Nat2Z.id, Heq, lookup_app_r, Nat.sub_diag in Hlookup by lia.
    injection Hlookup as <-. rewrite Hread. cbn [mbind outcome_bind].
    destruct (decide (url entry = url_ ∧ namespace entry = namespace_)) as [Hmatch | Hother].
    + rewrite Z.add_0_r. reflexivity.
    + rewrite Z.pred_succ.
      rewrite (IH (Z.succ start) (before ++ [entry]))
        by (try (rewrite <- app_assoc; exact Heq); rewrite length_app; simpl; lia).
      destruct (list_find _ rest) as [[k e] | ]; cbn [fmap option_fmap option_map prod_map fst snd];
        [ | reflexivity].
      do 3 f_equal. lia.
Qed.

(** On a sorted directory, the linear scan and the binary search for the
    namespace and url of an entry return the same: the entry and its index. *)
Theorem linear_and_binary_search_agree (i : nat) (entry : Entry) :
  entries !! i = Some entry →
  _get_entry_by_url self (namespace entry) (url entry) true
  = Ok (Some entry, Some (Z.of_nat i))
  ∧ _get_entry_by_url self (namespace entry) (url entry) false
    = Ok (Some entry, Some (Z.of_nat i)).
Proof.
  intros Hentry. split;
    [ | exact (proj1 (binary_search_found _ _ i entry Hentry eq_refl))].
  unfold _get_entry_by_url. fold n.
  pose proof directory_length as Hlen.
  assert (Hseq : seqZ 0 n = seqZ 0 (Z.of_nat (length entries)))
    by (unfold seqZ; do 2 f_equal; lia).
  rewrite Hseq, (linear_search_scan _ _ 0 [] entries) by reflexivity.
  destruct (list_find _ entries) as [[k e] | ] eqn:Hfind.
  - apply list_find_Some in Hfind as (Hk & [Hurl Hns] & _).
    assert (Hkey : entry_key e = entry_key entry)
      by (unfold entry_key; rewrite Hurl, Hns; reflexivity).
    pose proof (sorted_keys_unique k i e entry Hk Hentry Hkey) as ->.
    replace e with entry by congruence. reflexivity.
  - exfalso. apply list_find_None in Hfind. rewrite Forall_forall in Hfind.
    apply (Hfind entry); [eapply list_elem_of_lookup_2; exact Hentry | auto].
Qed.

(** On a sorted directory, [get_article_by_url] for the namespace and url of
    the entry at index [i] returns the article of that index when [i] is
    not 0, and None when it is 0. *)
Theorem get_article_by_url_found (lzma_decompress : list byte → outcome (list byte))
    (depth : nat) (follow_redirect : bool) (i : nat) (entry : Entry) :
  entries !! i = Some entry →
  get_article_by_url lzma_decompress depth self (namespace entry) (url entry) follow_redirect
  = if decide (i = 0%nat) then Ok None
    else article ← _get_article_by_index lzma_decompress depth self (Z.of_nat i)
                      follow_redirect;
         Ok (Some article).
Proof.
  intros Hentry. unfold get_article_by_url.
  rewrite (proj1 (binary_search_found _ _ i entry Hentry eq_refl)).
  cbn [mbind outcome_bind truth].
  destruct (decide (i = 0%nat)) as [-> | Hi]; [reflexivity | ].
  destruct (Z.eqb_spec (Z.of_nat i) 0) as [ | _]; [lia | reflexivity].
Qed.

End Search.

Lemma two_articles_directory :
  read_directory (opened two_articles) = Ok two_articles_entries
  ∧ StronglySorted (fun a b => str_ltb a b = true) (entry_key <$> two_articles_entries).
Proof.
  split; [vm_compute; reflexivity | ].
  repeat (constructor; [ | repeat (constructor; [vm_compute; reflexivity | ]); constructor]).
  constructor.
Defined.

Lemma binary_search_finds_witness :
  _get_entry_by_url (opened two_articles) (text "A") (text "b") false
  = Ok (Some (mkEntry 0 0 (text "A") 0 (ArticleFields 0 1) (text "b") (text "Second")
                      (Some 1)),
        Some 1)
  ∧ Forall (fun p => 0 ≤ p < articleCount (header_fields (opened two_articles)))
           (binary_search_probes (opened two_articles) (text "A") (text "b")).
Proof.
  exact (binary_search_finds (opened two_articles) two_articles_entries
           (proj1 two_articles_directory) (proj2 two_articles_directory)
           (text "A") (text "b") 1 _ eq_refl eq_refl).
Defined.

Lemma binary_search_misses_witness :
  _get_entry_by_url (opened two_articles) (text "A") (text "aa") false = Ok (None, None)
  ∧ Forall (fun p => 0 ≤ p < articleCount (header_fields (opened two_articles)))
           (binary_search_probes (opened two_articles) (text "A") (text "aa")).
Proof.
  refine (binary_search_misses (opened two_articles) two_articles_entries
            (proj1 two_articles_directory) (proj2 two_articles_directory)
            (text "A") (text "aa") 1 _ _ eq_refl eq_refl).
  intros entry Hin.
  repeat (apply elem_of_cons in Hin as [-> | Hin]); [ | | inversion Hin];
    vm_compute; discriminate.
Defined.

Lemma binary_search_probes_past_end_witness :
  articleCount (header_fields (opened two_articles))
  ∈ binary_search_probes (opened two_articles) (text "A") (text "c").
Proof.
  refine (binary_search_probes_past_end (opened two_articles) two_articles_entries
            (proj1 two_articles_directory) (text "A") (text "c") _ _).
  - vm_compute. discriminate.
  - intros entry Hin.
    repeat (apply elem_of_cons in Hin as [-> | Hin]); [ | | inversion Hin];
      vm_compute; reflexivity.
Defined.

Lemma linear_and_binary_search_agree_witness :
  _get_entry_by_url (opened two_articles) (text "A") (text "a") true
  = Ok (Some (mkEntry 0 0 (text "A") 0 (ArticleFields 0 0) (text "a") (text "First")
                      (Some 0)),
        Some 0)
  ∧ _get_entry_by_url (opened two_articles) (text "A") (text "a") false
    = Ok (Some (mkEntry 0 0 (text "A") 0 (ArticleFields 0 0) (text "a") (text "First")
                        (Some 0)),
          Some 0).
Proof.
  exact (linear_and_binary_search_agree (opened two_articles) two_articles_entries
           (proj1 two_articles_directory) (proj2 two_articles_directory) 0 _ eq_refl).
Defined.

Lemma get_article_by_url_found_witness :
  get_article_by_url no_lzma_streams 1000 (opened two_articles) (text "A") (text "a") true
  = Ok None.
Proof.
  exact (get_article_by_url_found (opened two_articles) two_articles_entries
           (proj1 two_articles_directory) (proj2 two_articles_directory)
           no_lzma_streams 1000 true 0 _ eq_refl).
Defined.

(** ** Lookup by url *)

(** C1 fails on the code at directory index 0: in the archive of A/a (index
    0) and A/b (index 1), the search finds A/a at index 0 and its article
    can be read, but [get_article_by_url] returns None, because [if idx:]
    takes the index 0 for a miss. *)
Lemma get_article_by_url_index_0 :
  _get_entry_by_url (opened two_articles) (text "A") (text "a") false
  = Ok (Some (mkEntry 0 0 (text "A") 0 (ArticleFields 0 0) (text "a") (text "First")
                      (Some 0)),
        Some 0)
  ∧ _get_article_by_index no_lzma_streams 1000 (opened two_articles) 0 true
    = Ok (mkArticle (Some (bytes_of "<html>one</html>")) (text "A")
                    (mimetype_name (text "text/html")))
  ∧ get_article_by_url no_lzma_streams 1000 (opened two_articles) (text "A") (text "a") true
    = Ok None
  ∧ get_article_by_url no_lzma_streams 1000 (opened two_articles) (text "A") (text "b") true
    = Ok (Some (mkArticle (Some (bytes_of "<html>two</html>")) (text "A")
                          (mimetype_name (text "text/html")))).
Proof. repeat split; vm_compute; reflexivity. Qed.

(** C2 fails on the code for an absent key above every key of the archive:
    in the archive of A/a and A/b, the linear scan for A/c returns
    (None, None), and the binary search reads the directory at index 2, past
    the two entries, where the url pointer table has ended: the bytes there
    are not an offset of an entry, and the read raises struct.error. *)
Lemma linear_and_binary_search_differ :
  _get_entry_by_url (opened two_articles) (text "A") (text "c") true = Ok (None, None)
  ∧ _get_entry_by_url (opened two_articles) (text "A") (text "c") false
    = Raise struct_error.
Proof. split; vm_compute; reflexivity. Qed.

(** C3 fails on the code for the same key: the archive has articleCount 2,
    and the binary search for A/c probes the indices 1 and 2. The loop
    starts with end = articleCount and runs while front <= end, so index
    articleCount itself is probed when the key is above all entries. *)
Lemma binary_search_probes_articleCount :
  articleCount (header_fields (opened two_articles)) = 2
  ∧ binary_search_probes (opened two_articles) (text "A") (text "c") = [1; 2]
  ∧ read_directory_entry_by_index (opened two_articles) 2 = Raise struct_error.
Proof. repeat split; vm_compute; reflexivity. Qed.

(** ** Further examples *)

(** Without a ZERO in what is left of the file, [read_zero_terminated]
    never returns. *)
Theorem read_zero_terminated_hangs (encoding : codec) (before rest : list byte) :
  x00 ∉ rest →
  read_zero_terminated (Stream (before ++ rest) (Z.of_nat (length before))) encoding = Hang.
Proof.
  intros Hz. unfold read_zero_terminated.
  rewrite remaining_app, (read_until_ZERO_none rest Hz). reflexivity.
Qed.

Lemma read_zero_terminated_hangs_witness :
  (x00 ∉ [x61; x62])
  ∧ read_zero_terminated (Stream ([x2f] ++ [x61; x62]) 1) codec_utf_8 = Hang.
Proof.
  assert (Hz : x00 ∉ [x61; x62]).
  { intros Hin. repeat (apply elem_of_cons in Hin as [Heq | Hin]; [discriminate | ]).
    inversion Hin. }
  split; [exact Hz | ].
  exact (read_zero_terminated_hangs codec_utf_8 [x2f] _ Hz).
Defined.

Lemma redirect_chain_followed_witness :
  _get_article_by_index no_lzma_streams 2 (opened one_redirect) 0 true
  = _get_article_by_index no_lzma_streams 1 (opened one_redirect) 1 true.
Proof.
  apply (redirect_chain_followed no_lzma_streams (opened one_redirect) 1 0 1 2).
  - eapply nsteps_l; [ | constructor].
    eexists. split; [vm_compute; reflexivity | reflexivity].
  - lia.
  - eexists _, _, _. split; [vm_compute; reflexivity | reflexivity].
Defined.

(** The scenario of a redirect: followed, A/alias gives the article of
    A/target; not followed, a record without data whose mimetype field is
    the index of the target. *)
Lemma one_redirect_followed_or_not :
  get_article_by_url no_lzma_streams 1000 (opened one_redirect) (text "A") (text "target") true
  = Ok (Some (mkArticle (Some (bytes_of "<html>target</html>")) (text "A")
                        (mimetype_name (text "text/html"))))
  ∧ _get_article_by_index no_lzma_streams 1000 (opened one_redirect) 0 true
    = Ok (mkArticle (Some (bytes_of "<html>target</html>")) (text "A")
                    (mimetype_name (text "text/html")))
  ∧ _get_article_by_index no_lzma_streams 1000 (opened one_redirect) 0 false
    = Ok (mkArticle None (text "A") (redirect_target 1))
  ∧ get_main_page no_lzma_streams 1000 (opened one_redirect)
    = _get_article_by_index no_lzma_streams 1000 (opened one_redirect) 1 true.
Proof. repeat split; vm_compute; reflexivity. Qed.

(** ** Structures *)

Lemma int_from_le_bound (bs : list byte) : int_from_le bs < 256 ^ Z.of_nat (length bs).
Proof.
  induction bs as [ | b0 bs IH]; [simpl; lia | ].
  cbn [int_from_le foldr length]. fold (int_from_le bs).
  rewrite Nat2Z.inj_succ, Z.pow_succ_r by lia.
  pose proof (byte_val_range b0). lia.
Qed.

(** What [Struct_unpack_from] makes of a buffer that starts with a field. *)
Lemma Struct_unpack_from_cons (fld : Field) (structure : list Field) (buffer : list byte) :
  (format_size (field_format fld) ≤ length buffer)%nat →
  Struct_unpack_from (fld :: structure) buffer
  = (vs ← Struct_unpack_from structure (drop (format_size (field_format fld)) buffer);
     Ok (match field_format fld with
         | fmt_c => bytes_value (take (format_size (field_format fld)) buffer)
         | _ => int_value (int_from_le (take (format_size (field_format fld)) buffer))
         end :: vs)).
Proof.
  intros Hlen. cbn [Struct_unpack_from]. rewrite decide_False by lia. reflexivity.
Qed.

(** Unpacking what was packed gives the values back, whatever follows them
    in the buffer. *)
Lemma Struct_unpack_pack (structure : list Field) (values : list field_value)
    (rest : list byte) :
  Forall2 fits structure values →
  Struct_unpack_from structure (Struct_pack structure values ++ rest) = Ok values.
Proof.
  intros Hfits. induction Hfits as [ | fld v structure values Hv Hfits IH]; [reflexivity | ].
  cbn [Struct_pack]. rewrite <- app_assoc.
  destruct v as [z | bs]; destruct Hv as [Hfmt Hv].
  - rewrite Struct_unpack_from_cons
      by (rewrite length_app, length_pack_uint; lia).
    rewrite drop_app_length', take_app_length', IH
      by (rewrite length_pack_uint; reflexivity).
    cbn [mbind outcome_bind].
    rewrite int_from_le_pack_uint by exact Hv.
    destruct (field_format fld); try reflexivity. contradiction.
  - rewrite Struct_unpack_from_cons
      by (rewrite length_app, Hfmt; cbn [format_size]; lia).
    rewrite Hfmt. cbn [format_size].
    rewrite drop_app_length', take_app_length', IH by (symmetry; exact Hv).
    reflexivity.
Qed.

(** Block.unpack reads back the values that were packed into the buffer,
    each a value of its field, in the order of the structure; what follows
    them in the buffer is not looked at. *)
Theorem Block_unpack_pack (structure : list Field) (values : list field_value)
    (rest : list byte) :
  Forall2 fits structure values →
  Block_unpack structure (Struct_pack structure values ++ rest) = Ok values.
Proof. exact (Struct_unpack_pack structure values rest). Qed.

Ltac fits_each :=
  repeat (constructor;
          [ first [ split; [discriminate | cbn; lia] | split; reflexivity ] | ]);
  constructor.

Lemma Block_unpack_pack_witness :
  Forall2 fits ARTICLE_ENTRY
    [ int_value 3; int_value 0; bytes_value [x41]; int_value 7;
      int_value 1; int_value 2 ]
  ∧ Block_unpack ARTICLE_ENTRY
      (Struct_pack ARTICLE_ENTRY
         [ int_value 3; int_value 0; bytes_value [x41]; int_value 7;
           int_value 1; int_value 2 ] ++ [x61; x00])
    = Ok [ int_value 3; int_value 0; bytes_value [x41]; int_value 7;
           int_value 1; int_value 2 ].
Proof.
  assert (Hfits : Forall2 fits ARTICLE_ENTRY
                    [ int_value 3; int_value 0; bytes_value [x41]; int_value 7;
                      int_value 1; int_value 2 ]) by fits_each.
  split; [exact Hfits | exact (Block_unpack_pack _ _ _ Hfits)].
Defined.

Lemma Struct_unpack_from_enough (structure : list Field) (buffer : list byte) :
  (Struct_size structure ≤ length buffer)%nat →
  ∃ values, Struct_unpack_from structure buffer = Ok values
            ∧ Forall2 fits structure values.
Proof.
  revert buffer. induction structure as [ | fld structure IH]; intros buffer.
  - intros _. exists []. split; [reflexivity | constructor].
  - cbn [Struct_size foldr]. fold (Struct_size structure).
    intros Hlen. rewrite Struct_unpack_from_cons by lia.
    destruct (IH (drop (format_size (field_format fld)) buffer))
      as (values & Hvalues & Hfits); [rewrite length_drop; lia | ].
    rewrite Hvalues. cbn [mbind outcome_bind]. eexists. split; [reflexivity | ].
    constructor; [ | exact Hfits].
    assert (Hchunk : length (take (format_size (field_format fld)) buffer)
                     = format_size (field_format fld))
      by (rewrite length_take; lia).
    remember (take (format_size (field_format fld)) buffer) as chunk eqn:Heqchunk.
    clear Heqchunk.
    assert (Hint : field_format fld ≠ fmt_c → fits fld (int_value (int_from_le chunk))).
    { intros Hne. split; [exact Hne | ]. split; [apply int_from_le_nonneg | ].
      rewrite <- Hchunk. apply int_from_le_bound. }
    destruct (field_format fld) eqn:Hfmt; try (apply Hint; discriminate).
    split; [exact Hfmt | ]. rewrite Hchunk. reflexivity.
Qed.

Lemma Struct_unpack_from_short (structure : list Field) (buffer : list byte) :
  (length buffer < Struct_size structure)%nat →
  Struct_unpack_from structure buffer = Raise struct_error.
Proof.
  revert buffer. induction structure as [ | fld structure IH]; intros buffer.
  - cbn. lia.
  - cbn [Struct_size foldr]. fold (Struct_size structure).
    intros Hlen. cbn [Struct_unpack_from].
    destruct (decide (length buffer < format_size (field_format fld))%nat)
      as [ | Hge]; [reflexivity | ].
    rewrite (IH (drop (format_size (field_format fld)) buffer))
      by (rewrite length_drop; lia).
    reflexivity.
Qed.

(** Block.unpack: a buffer is unpacked exactly when it has the size of the
    structure at least, and a shorter one raises struct.error. The values
    read are values of their fields: no integer is negative or too wide for
    its format, and a [c] field is one byte. *)
Theorem Struct_unpack_from_size (structure : list Field) (buffer : list byte) :
  ((Struct_size structure ≤ length buffer)%nat →
   ∃ values, Block_unpack structure buffer = Ok values
             ∧ Forall2 fits structure values)
  ∧ ((length buffer < Struct_size structure)%nat →
     Block_unpack structure buffer = Raise struct_error).
Proof.
  split; [apply Struct_unpack_from_enough | apply Struct_unpack_from_short].
Qed.

Lemma length_Struct_pack (structure : list Field) (values : list field_value) :
  Forall2 fits structure values →
  length (Struct_pack structure values) = Struct_size structure.
Proof.
  intros Hfits. induction Hfits as [ | fld v structure values Hv Hfits IH]; [reflexivity | ].
  cbn [Struct_pack Struct_size foldr]. fold (Struct_size structure).
  rewrite length_app, IH. destruct v as [z | bs]; destruct Hv as [Hfmt Hv].
  - rewrite length_pack_uint. reflexivity.
  - rewrite Hfmt, Hv. reflexivity.
Qed.

(** Block._unpack_from_file at the offset of what was packed: the values,
    and the file left after them. *)
Lemma Block_unpack_from_file_pack (structure : list Field) (values : list field_value)
    (before rest : list byte) (f : stream) :
  Forall2 fits structure values →
  data f = before ++ Struct_pack structure values ++ rest →
  Block_unpack_from_file structure f (Some (Z.of_nat (length before)))
  = Ok (values,
        Stream (data f) (Z.of_nat (length before) + Z.of_nat (Struct_size structure))).
Proof.
  intros Hfits Hdata. unfold Block_unpack_from_file, seek.
  destruct (Z.ltb_spec (Z.of_nat (length before)) 0) as [ | _]; [lia | ].
  cbn [mbind outcome_bind]. rewrite Hdata.
  pose proof (length_Struct_pack structure values Hfits) as Hlen.
  unfold read. rewrite remaining_app. cbn [data pos].
  destruct (Z.ltb_spec (Z.of_nat (Struct_size structure)) 0) as [ | _]; [lia | ].
  cbn [orb].
  assert (Hgot : (if Z.of_nat (length (Struct_pack structure values ++ rest))
                     <=? Z.of_nat (Struct_size structure)
                  then Struct_pack structure values ++ rest
                  else take (Z.to_nat (Z.of_nat (Struct_size structure)))
                         (Struct_pack structure values ++ rest))
                 = Struct_pack structure values).
  { rewrite length_app, Hlen.
    destruct (Z.leb_spec (Z.of_nat (Struct_size structure + length rest))
                         (Z.of_nat (Struct_size structure))) as [Hle | Hgt].
    - assert (rest = []) as -> by (apply length_zero_iff_nil; lia).
      apply app_nil_r.
    - rewrite Nat2Z.id. apply take_app_length'. symmetry. exact Hlen. }
  rewrite Hgot, Hlen. unfold Block_unpack.
  pose proof (Struct_unpack_pack structure values [] Hfits) as Hunpack.
  rewrite app_nil_r in Hunpack. rewrite Hunpack. reflexivity.
Qed.

(** HeaderBlock: the header that was written is the header that is read,
    whatever follows it in the file. *)
Lemma HeaderBlock_unpack_header_bytes (h : HeaderFields) (rest : list byte) :
  Forall2 fits HEADER (header_values h) →
  HeaderBlock_unpack_from_file (Stream (header_bytes h ++ rest) 0) = Ok h.
Proof.
  intros Hfits. unfold HeaderBlock_unpack_from_file, Block_unpack_from_file.
  cbn [mbind outcome_bind].
  pose proof (length_Struct_pack HEADER (header_values h) Hfits) as Hlen.
  pose proof (read_fst (Stream (header_bytes h ++ rest) 0)
                (Z.of_nat (Struct_size HEADER)) ltac:(lia)) as Hf.
  destruct (read _ _) as [buffer file']. cbn [fst] in Hf.
  rewrite remaining_start, Nat2Z.id in Hf. unfold header_bytes in Hf.
  rewrite take_app_length' in Hf by (symmetry; exact Hlen). subst buffer.
  unfold Block_unpack.
  pose proof (Struct_unpack_pack HEADER (header_values h) [] Hfits) as Hunpack.
  rewrite app_nil_r in Hunpack. rewrite Hunpack.
  destruct h. reflexivity.
Qed.

(** ZIMFile.__init__ on a file shorter than the 80 bytes of the header
    raises struct.error. *)
Theorem ZIMFile_init_short (contents : list byte) (encoding : codec) :
  (length contents < 80)%nat →
  ZIMFile_init contents encoding = Raise struct_error.
Proof.
  intros Hlen. unfold ZIMFile_init, HeaderBlock_unpack_from_file, Block_unpack_from_file.
  cbn [mbind outcome_bind].
  pose proof (read_fst (Stream contents 0) (Z.of_nat (Struct_size HEADER)) ltac:(lia)) as Hf.
  destruct (read _ _) as [buffer file']. cbn [fst] in Hf.
  rewrite remaining_start in Hf. subst buffer. unfold Block_unpack.
  rewrite Struct_unpack_from_short; [reflexivity | ].
  rewrite length_take. change (Struct_size HEADER) with 80%nat. lia.
Qed.

Lemma ZIMFile_init_short_witness :
  (length [x5a; x49; x4d; x04] < 80)%nat
  ∧ ZIMFile_init [x5a; x49; x4d; x04] codec_utf_8 = Raise struct_error.
Proof.
  assert (Hlen : (length [x5a; x49; x4d; x04] < 80)%nat) by (cbn; lia).
  split; [exact Hlen | exact (ZIMFile_init_short _ codec_utf_8 Hlen)].
Defined.

(** ** Pointer tables *)

Lemma length_pointer_table (width : nat) (pointers : list Z) :
  length (pointer_table width pointers) = (width * length pointers)%nat.
Proof.
  unfold pointer_table. induction pointers as [ | p pointers IH]; cbn; [lia | ].
  rewrite length_app, length_pack_uint. fold (fmap (pack_uint width) pointers).
  rewrite IH. lia.
Qed.

Lemma pointer_table_lookup (width : nat) (pointers : list Z) (i : nat) (v : Z) :
  pointers !! i = Some v →
  pointer_table width pointers
  = pointer_table width (take i pointers) ++ pack_uint width v
    ++ pointer_table width (drop (S i) pointers).
Proof.
  intros Hv. rewrite <- (take_drop_middle _ _ _ Hv) at 1.
  unfold pointer_table. rewrite fmap_app, concat_app. reflexivity.
Qed.

(** The element [i] of a pointer table at the position its header field
    names. *)
Lemma _read_offset_lookup (self : ZIMFile) (field : HeaderFields → Z) (width : nat)
    (before rest : list byte) (pointers : list Z) (i : nat) (v : Z) :
  file self = before ++ pointer_table width pointers ++ rest →
  field (header_fields self) = Z.of_nat (length before) →
  pointers !! i = Some v → 0 ≤ v < 256 ^ Z.of_nat width →
  _read_offset self (Z.of_nat i) field width = Ok v.
Proof.
  intros Hfile Hfield Hv Hrange. unfold _read_offset, seek. rewrite Hfield.
  destruct (Z.ltb_spec (Z.of_nat (length before) + Z.of_nat width * Z.of_nat i) 0)
    as [ | _]; [lia | ].
  cbn [mbind outcome_bind data]. rewrite read_fst by lia.
  rewrite Hfile, (pointer_table_lookup width pointers i v Hv).
  rewrite (app_assoc before), <- !app_assoc, (app_assoc before).
  rewrite remaining_at.
  - rewrite Nat2Z.id, app_assoc.
    rewrite take_app_le by (rewrite length_app, length_pack_uint; lia).
    rewrite take_app_length' by (symmetry; apply length_pack_uint).
    apply unpack_pack_uint. exact Hrange.
  - rewrite length_app, length_pointer_table, length_take.
    apply lookup_lt_Some in Hv. lia.
Qed.




(** ** Directory entries *)

(** A zero-terminated field at the position of the file: the text of the
    field, and the file left after its ZERO. *)
Lemma read_zero_terminated_field (encoding : codec) (f : stream)
    (before field after : list byte) :
  data f = before ++ field ++ x00 :: after → pos f = Z.of_nat (length before) →
  x00 ∉ field →
  read_zero_terminated f encoding
  = Ok (decoded encoding field, Stream (data f) (pos f + Z.of_nat (length field) + 1)).
Proof.
  intros Hdata Hpos Hz. unfold read_zero_terminated.
  destruct f as [d p]. cbn [data pos] in *. subst d p.
  rewrite remaining_app, (read_until_ZERO_field _ _ Hz).
  unfold bytes_decode. rewrite decode_ignore_sequences. reflexivity.
Qed.

(** DirectoryBlock.unpack_from_file at the offset of an entry: the fields of
    the structure, then the url and the title. *)
Lemma DirectoryBlock_unpack_from_file_entry (structure : list Field)
    (values : list field_value) (encoding : codec) (f : stream)
    (before url_ title_ rest : list byte) :
  data f = before ++ directory_entry_bytes structure values url_ title_ ++ rest →
  Forall2 fits structure values → x00 ∉ url_ → x00 ∉ title_ →
  DirectoryBlock_unpack_from_file structure encoding f (Some (Z.of_nat (length before)))
  = match values with
    | [ int_value mimetype; int_value parameterLen; bytes_value namespace;
        int_value revision; int_value clusterNumber; int_value blobNumber ] =>
        Ok (mkEntry mimetype parameterLen (decoded encoding namespace) revision
              (ArticleFields clusterNumber blobNumber)
              (decoded encoding url_) (decoded encoding title_) None)
    | [ int_value mimetype; int_value parameterLen; bytes_value namespace;
        int_value revision; int_value redirectIndex ] =>
        Ok (mkEntry mimetype parameterLen (decoded encoding namespace) revision
              (RedirectFields redirectIndex)
              (decoded encoding url_) (decoded encoding title_) None)
    | _ => Raise KeyError
    end.
Proof.
  intros Hdata Hfits Hurl Htitle. unfold DirectoryBlock_unpack_from_file.
  unfold directory_entry_bytes in Hdata. rewrite <- !app_assoc in Hdata.
  rewrite (Block_unpack_from_file_pack structure values before _ f Hfits Hdata).
  cbn [mbind outcome_bind].
  pose proof (length_Struct_pack structure values Hfits) as Hlen.
  rewrite (read_zero_terminated_field encoding _
             (before ++ Struct_pack structure values) url_
             (title_ ++ ZERO ++ rest)); cbn [data pos];
    [ | rewrite Hdata, <- !app_assoc; reflexivity
      | rewrite length_app, Hlen; lia | exact Hurl].
  cbn [mbind outcome_bind].
  rewrite (read_zero_terminated_field encoding _
             (before ++ Struct_pack structure values ++ url_ ++ ZERO) title_ rest);
    cbn [data pos];
    [ | rewrite Hdata, <- !app_assoc; reflexivity
      | rewrite !length_app, Hlen; cbn [length ZERO]; lia | exact Htitle].
  cbn [mbind outcome_bind].
  assert (Hdecode : ∀ namespace, bytes_decode encoding ignore namespace
                                 = Ok (decoded encoding namespace)).
  { intros namespace. unfold bytes_decode. apply decode_ignore_sequences. }
  repeat (match goal with
          | |- context [match ?v with _ => _ end] => is_var v; destruct v
          end; try reflexivity).
  all: rewrite Hdecode; reflexivity.
Qed.

(** ZIMFile._read_directory_entry at the offset of an entry whose first two
    bytes are the unsigned 16-bit [mimetype_]: the entry is unpacked as a
    Redirect Entry when [mimetype_] is 0xffff and as an Article Entry
    otherwise. *)
Lemma _read_directory_entry_structure (self : ZIMFile) (before rest : list byte)
    (mimetype_ : Z) :
  file self = before ++ pack_uint 2 mimetype_ ++ rest →
  0 ≤ mimetype_ < 65536 →
  _read_directory_entry self (Z.of_nat (length before))
  = DirectoryBlock_unpack_from_file
      (if mimetype_ =? 0xffff then REDIRECT_ENTRY else ARTICLE_ENTRY) (_enc self)
      (Stream (file self) (Z.of_nat (length before) + 2))
      (Some (Z.of_nat (length before))).
Proof.
  intros Hfile Hrange. unfold _read_directory_entry, seek.
  destruct (Z.ltb_spec (Z.of_nat (length before)) 0) as [ | _]; [lia | ].
  cbn [mbind outcome_bind data].
  assert (Hread : read (Stream (file self) (Z.of_nat (length before))) 2
                  = (pack_uint 2 mimetype_,
                     Stream (file self) (Z.of_nat (length before) + 2))).
  { unfold read. rewrite Hfile, remaining_app. cbn [data pos].
    change (2 <? 0) with false. cbn [orb].
    destruct (Z.leb_spec (Z.of_nat (length (pack_uint 2 mimetype_ ++ rest))) 2)
      as [Hle | Hgt].
    - rewrite length_app, length_pack_uint in Hle.
      assert (rest = []) as -> by (apply length_zero_iff_nil; lia).
      rewrite app_nil_r, length_pack_uint. reflexivity.
    - change (Z.to_nat 2) with 2%nat.
      rewrite take_app_length' by (symmetry; apply length_pack_uint).
      rewrite length_pack_uint. reflexivity. }
  rewrite Hread. rewrite unpack_pack_uint by (change (256 ^ Z.of_nat 2) with 65536; lia).
  reflexivity.
Qed.

(** ZIMFile.read_directory_entry_by_index reads back a directory entry that
    was written: when the element [i] of the url pointer table is the offset
    of an entry whose fields fit their formats, whose mimetype is 0xffff
    exactly when it is a Redirect Entry, and whose url and title hold no
    ZERO, the entry read has these fields, the namespace, url and title
    decoded with errors="ignore", and the index [i]. *)
Theorem read_directory_entry_by_index_written (self : ZIMFile)
    (before rest : list byte) (pointers : list Z) (i : nat)
    (before_entry after_entry url_ title_ : list byte)
    (mimetype_ parameterLen_ : Z) (namespace_ : byte) (revision_ : Z)
    (k : entry_kind) :
  file self = before ++ pointer_table 8 pointers ++ rest →
  urlPtrPos (header_fields self) = Z.of_nat (length before) →
  pointers !! i = Some (Z.of_nat (length before_entry)) →
  Z.of_nat (length before_entry) < 2 ^ 64 →
  file self
  = before_entry
    ++ directory_entry_bytes (entry_structure k)
         (entry_values mimetype_ parameterLen_ namespace_ revision_ k) url_ title_
    ++ after_entry →
  Forall2 fits (entry_structure k)
    (entry_values mimetype_ parameterLen_ namespace_ revision_ k) →
  (mimetype_ = 0xffff ↔ entry_structure k = REDIRECT_ENTRY) →
  x00 ∉ url_ → x00 ∉ title_ →
  read_directory_entry_by_index self (Z.of_nat i)
  = Ok (mkEntry mimetype_ parameterLen_ (decoded (_enc self) [namespace_]) revision_ k
          (decoded (_enc self) url_) (decoded (_enc self) title_) (Some (Z.of_nat i))).
Proof.
  intros Htable Hfield Hi Hoffset Hentry Hfits Hmime Hurl Htitle.
  unfold read_directory_entry_by_index, _read_url_offset.
  rewrite (_read_offset_lookup self urlPtrPos 8 before rest pointers i _ Htable Hfield Hi)
    by (change (256 ^ Z.of_nat 8) with (2 ^ 64); lia).
  cbn [mbind outcome_bind].
  assert (Hrange : 0 ≤ mimetype_ < 65536).
  { destruct k; cbn [entry_structure entry_values app] in Hfits;
      apply Forall2_cons_1 in Hfits as [[_ Hm] _]; exact Hm. }
  rewrite (_read_directory_entry_structure self before_entry
             (drop 2 (directory_entry_bytes (entry_structure k)
                        (entry_values mimetype_ parameterLen_ namespace_ revision_ k)
                        url_ title_) ++ after_entry) mimetype_);
    [ | rewrite Hentry at 1; destruct k; reflexivity | exact Hrange].
  assert (Hstructure : (if mimetype_ =? 65535 then REDIRECT_ENTRY else ARTICLE_ENTRY)
                       = entry_structure k).
  { destruct (Z.eqb_spec mimetype_ 65535) as [Heq | Hne].
    - symmetry. apply Hmime. exact Heq.
    - destruct k as [c b0 | j]; [reflexivity | ].
      exfalso. apply Hne, Hmime. reflexivity. }
  rewrite Hstructure.
  rewrite (DirectoryBlock_unpack_from_file_entry (entry_structure k)
             (entry_values mimetype_ parameterLen_ namespace_ revision_ k) (_enc self)
             (Stream (file self) (Z.of_nat (length before_entry) + 2))
             before_entry url_ title_ after_entry Hentry Hfits Hurl Htitle).
  destruct k; reflexivity.
Qed.

Lemma read_directory_entry_by_index_written_witness :
  file (opened one_redirect)
  = take 91 one_redirect ++ pointer_table 8 [123; 142] ++ drop 107 one_redirect
  ∧ file (opened one_redirect)
    = take 123 one_redirect
      ++ directory_entry_bytes (entry_structure (RedirectFields 1))
           (entry_values 65535 0 x41 0 (RedirectFields 1)) (bytes_of "alias") []
      ++ drop 142 one_redirect
  ∧ read_directory_entry_by_index (opened one_redirect) 0
    = Ok (mkEntry 65535 0 (text "A") 0 (RedirectFields 1) (text "alias") []
            (Some 0)).
Proof.
  assert (Htable : file (opened one_redirect)
                   = take 91 one_redirect ++ pointer_table 8 [123; 142]
                     ++ drop 107 one_redirect) by (vm_compute; reflexivity).
  assert (Hentry : file (opened one_redirect)
                   = take 123 one_redirect
                     ++ directory_entry_bytes (entry_structure (RedirectFields 1))
                          (entry_values 65535 0 x41 0 (RedirectFields 1))
                          (bytes_of "alias") []
                     ++ drop 142 one_redirect) by (vm_compute; reflexivity).
  split; [exact Htable | ]. split; [exact Hentry | ].
  refine (read_directory_entry_by_index_written (opened one_redirect) _ _ _ 0%nat
            _ _ _ _ 65535 0 x41 0 (RedirectFields 1) Htable _ _ _ Hentry _ _ _ _).
  - vm_compute; reflexivity.
  - vm_compute; reflexivity.
  - vm_compute; reflexivity.
  - cbn [entry_structure entry_values app]. fits_each.
  - split; reflexivity.
  - intros Hin. vm_compute in Hin.
    repeat (apply elem_of_cons in Hin as [Heq | Hin]; [discriminate | ]).
    inversion Hin.
  - intros Hin. inversion Hin.
Defined.

(** ** Opening a file *)

Lemma length_mimetype_list_bytes (names : list (list byte)) :
  (length names ≤ length (mimetype_list_bytes names))%nat.
Proof.
  unfold mimetype_list_bytes. induction names as [ | name names IH]; cbn; [lia | ].
  rewrite !length_app. cbn [length ZERO]. fold (fmap (fun name => name ++ ZERO) names).
  lia.
Qed.

(** The loop of MimeTypeListBlock.unpack_from_file over names that decode to
    a text that is not empty, up to a field [last] whose text is empty. *)
Lemma mimetypes_loop_names (encoding : codec) (names : list (list byte))
    (rounds : nat) (f : stream) (before last rest : list byte) :
  data f = before ++ mimetype_list_bytes names ++ last ++ ZERO ++ rest →
  pos f = Z.of_nat (length before) →
  Forall (fun name => (x00 ∉ name) ∧ decoded encoding name ≠ []) names →
  x00 ∉ last → decoded encoding last = [] →
  (length names < rounds)%nat →
  mimetypes_loop rounds f encoding = Ok (decoded encoding <$> names).
Proof.
  revert rounds f before.
  induction names as [ | name names IH]; intros rounds f before Hdata Hpos Hnames Hlast
    Hempty Hrounds; (destruct rounds as [ | rounds]; [cbn in Hrounds; lia | ]);
    cbn [mimetypes_loop].
  - cbn [mimetype_list_bytes fmap list_fmap concat app] in Hdata.
    rewrite (read_zero_terminated_field encoding f before last rest Hdata Hpos Hlast).
    cbn [mbind outcome_bind]. rewrite Hempty, decide_True by reflexivity. reflexivity.
  - apply Forall_cons in Hnames as [[Hz Hname] Hnames].
    unfold mimetype_list_bytes in Hdata. cbn [fmap list_fmap concat] in Hdata.
    fold (fmap (fun name => name ++ ZERO) names) in Hdata.
    fold (mimetype_list_bytes names) in Hdata. rewrite <- !app_assoc in Hdata.
    rewrite (read_zero_terminated_field encoding f before name _ Hdata Hpos Hz).
    cbn [mbind outcome_bind]. rewrite decide_False by exact Hname.
    rewrite (IH rounds _ (before ++ name ++ ZERO)); cbn [data pos].
    + reflexivity.
    + rewrite Hdata, <- !app_assoc. reflexivity.
    + rewrite Hpos, !length_app. cbn [length ZERO]. lia.
    + exact Hnames.
    + exact Hlast.
    + exact Hempty.
    + cbn [length] in Hrounds. lia.
Qed.

Lemma MimeTypeListBlock_unpack_from_file_names (encoding : codec)
    (names : list (list byte)) (f : stream) (before last rest : list byte) :
  data f = before ++ mimetype_list_bytes names ++ last ++ ZERO ++ rest →
  Forall (fun name => (x00 ∉ name) ∧ decoded encoding name ≠ []) names →
  x00 ∉ last → decoded encoding last = [] →
  MimeTypeListBlock_unpack_from_file f encoding (Some (Z.of_nat (length before)))
  = Ok (decoded encoding <$> names).
Proof.
  intros Hdata Hnames Hlast Hempty. unfold MimeTypeListBlock_unpack_from_file, seek.
  destruct (Z.ltb_spec (Z.of_nat (length before)) 0) as [ | _]; [lia | ].
  cbn [mbind outcome_bind data].
  apply (mimetypes_loop_names encoding names _ _ before last rest); cbn [data pos];
    try assumption; try reflexivity.
  rewrite Hdata, !length_app. pose proof (length_mimetype_list_bytes names). lia.
Qed.

(** ZIMFile.__init__ on a file that starts with the 80 bytes of a header and
    has a mimetype list at the position [mimeListPos] of the header: the
    object holds this header, and the texts of the names of the list up to
    the first field whose text is empty. That field is the empty name that
    closes the list, or a name without one well-formed byte sequence in the
    encoding: what follows it is not read. *)
Theorem ZIMFile_init_written (encoding : codec) (h : HeaderFields)
    (names : list (list byte)) (middle last rest : list byte) :
  Forall2 fits HEADER (header_values h) →
  mimeListPos h = 80 + Z.of_nat (length middle) →
  Forall (fun name => (x00 ∉ name) ∧ decoded encoding name ≠ []) names →
  x00 ∉ last → decoded encoding last = [] →
  ZIMFile_init
    (header_bytes h ++ middle ++ mimetype_list_bytes names ++ last ++ ZERO ++ rest)
    encoding
  = Ok (mkZIMFile encoding
          (header_bytes h ++ middle ++ mimetype_list_bytes names ++ last ++ ZERO ++ rest)
          h (decoded encoding <$> names)).
Proof.
  intros Hfits Hpos Hnames Hlast Hempty. unfold ZIMFile_init.
  rewrite (HeaderBlock_unpack_header_bytes h _ Hfits). cbn [mbind outcome_bind].
  pose proof (length_Struct_pack HEADER (header_values h) Hfits) as Hlen.
  change (Struct_size HEADER) with 80%nat in Hlen. fold (header_bytes h) in Hlen.
  replace (mimeListPos h) with (Z.of_nat (length (header_bytes h ++ middle)))
    by (rewrite length_app, Hlen; lia).
  rewrite (MimeTypeListBlock_unpack_from_file_names encoding names _
             (header_bytes h ++ middle) last rest);
    [reflexivity | cbn [data]; rewrite <- !app_assoc; reflexivity | assumption ..].
Qed.

Lemma ZIMFile_init_written_witness :
  Forall2 fits HEADER
    (header_values (mkHeader 72173914 5 1 2 0 0 103 103 103 82 4294967295 4294967295 103))
  ∧ ZIMFile_init
      (header_bytes (mkHeader 72173914 5 1 2 0 0 103 103 103 82 4294967295 4294967295 103)
       ++ [x2a; x2a] ++ mimetype_list_bytes [bytes_of "text/html"]
       ++ [xff] ++ ZERO ++ bytes_of "text/plain" ++ ZERO ++ ZERO)
      codec_utf_8
    = Ok (mkZIMFile codec_utf_8
            (header_bytes
               (mkHeader 72173914 5 1 2 0 0 103 103 103 82 4294967295 4294967295 103)
             ++ [x2a; x2a] ++ mimetype_list_bytes [bytes_of "text/html"]
             ++ [xff] ++ ZERO ++ bytes_of "text/plain" ++ ZERO ++ ZERO)
            (mkHeader 72173914 5 1 2 0 0 103 103 103 82 4294967295 4294967295 103)
            [text "text/html"]).
Proof.
  assert (Hfits : Forall2 fits HEADER
            (header_values
               (mkHeader 72173914 5 1 2 0 0 103 103 103 82 4294967295 4294967295 103)))
    by (unfold header_values; cbn [magicNumber version uuid_low uuid_high articleCount
          clusterCount urlPtrPos titlePtrPos clusterPtrPos mimeListPos mainPage layoutPage
          checksumPos]; fits_each).
  split; [exact Hfits | ].
  refine (ZIMFile_init_written codec_utf_8 _ [bytes_of "text/html"] [x2a; x2a] [xff]
            (bytes_of "text/plain" ++ ZERO ++ ZERO) Hfits eq_refl _ _ eq_refl).
  - constructor; [ | constructor]. split; [ | vm_compute; discriminate].
    intros Hin. vm_compute in Hin.
    repeat (apply elem_of_cons in Hin as [Heq | Hin]; [discriminate | ]).
    inversion Hin.
  - intros Hin. apply elem_of_cons in Hin as [Heq | Hin]; [discriminate | inversion Hin].
Defined.

(** ** Iterating over a [ZIMFile] *)

Lemma iter_loop_app (self : ZIMFile) (indices more : list Z) (entries : list Entry) :
  Forall2 (fun idx entry => read_directory_entry_by_index self idx = Ok entry)
          indices entries →
  iter_loop self (indices ++ more)
  = (articles_of (zip indices entries) ++ (iter_loop self more).1,
     (iter_loop self more).2).
Proof.
  intros Hread. induction Hread as [ | idx entry indices entries Hentry Hread IH].
  - cbn [app]. destruct (iter_loop self more). reflexivity.
  - cbn [app iter_loop zip zip_with]. rewrite Hentry, IH.
    unfold articles_of. rewrite filter_cons. cbn [snd fst].
    destruct (decide (namespace entry = [65])); reflexivity.
Qed.

(** ZIMFile.__iter__ on an archive whose directory entries can all be read
    yields, in the order of the directory, the full url, the title and the
    index of exactly the entries whose namespace is "A", and is then
    exhausted. *)
Theorem ZIMFile_iter_articles (self : ZIMFile) (entries : list Entry) :
  read_directory self = Ok entries →
  ZIMFile_iter self
  = (articles_of (zip (seqZ 0 (articleCount (header_fields self))) entries), Ok tt).
Proof.
  intros Hdir. apply for_each_Ok in Hdir. unfold ZIMFile_iter.
  rewrite <- (app_nil_r (seqZ 0 _)) at 1.
  rewrite (iter_loop_app self _ [] entries Hdir). cbn [iter_loop fst snd].
  rewrite app_nil_r. reflexivity.
Qed.

Lemma ZIMFile_iter_articles_witness :
  read_directory (opened with_metadata)
  = Ok [ mkEntry 0 0 (text "A") 0 (ArticleFields 0 0) (text "home") [] (Some 0);
         mkEntry 1 0 (text "M") 0 (ArticleFields 0 1) (text "Language") [] (Some 1);
         mkEntry 1 0 (text "M") 0 (ArticleFields 0 2) (text "Title") [] (Some 2) ]
  ∧ ZIMFile_iter (opened with_metadata) = ([(text "A/home", [], 0)], Ok tt).
Proof.
  assert (Hdir : read_directory (opened with_metadata)
            = Ok [ mkEntry 0 0 (text "A") 0 (ArticleFields 0 0) (text "home") [] (Some 0);
                   mkEntry 1 0 (text "M") 0 (ArticleFields 0 1) (text "Language") []
                     (Some 1);
                   mkEntry 1 0 (text "M") 0 (ArticleFields 0 2) (text "Title") []
                     (Some 2) ]) by (vm_compute; reflexivity).
  split; [exact Hdir | ].
  exact (ZIMFile_iter_articles (opened with_metadata) _ Hdir).
Defined.

(** ZIMFile.__iter__ on an archive whose entry at index [k] cannot be read
    yields the articles among the entries before [k] and then raises what
    reading the entry [k] raises. *)
Theorem ZIMFile_iter_stops_at_error (self : ZIMFile) (entries : list Entry) (k : Z)
    (e : exn) :
  0 ≤ k < articleCount (header_fields self) →
  Forall2 (fun idx entry => read_directory_entry_by_index self idx = Ok entry)
          (seqZ 0 k) entries →
  read_directory_entry_by_index self k = Raise e →
  ZIMFile_iter self = (articles_of (zip (seqZ 0 k) entries), Raise e).
Proof.
  intros Hk Hread Hraise. unfold ZIMFile_iter.
  replace (articleCount (header_fields self))
    with (k + Z.succ (articleCount (header_fields self) - k - 1)) by lia.
  rewrite seqZ_app by lia. rewrite Z.add_0_l, (seqZ_cons k) by lia.
  rewrite (iter_loop_app self _ _ entries Hread). cbn [iter_loop].
  rewrite Hraise. cbn [fst snd]. rewrite app_nil_r. reflexivity.
Qed.

Lemma ZIMFile_iter_stops_at_error_witness :
  0 ≤ 2 < articleCount
            (header_fields
               (opened (take 24 two_articles ++ pack_uint 4 3 ++ drop 28 two_articles)))
  ∧ read_directory_entry_by_index
      (opened (take 24 two_articles ++ pack_uint 4 3 ++ drop 28 two_articles)) 2
    = Raise struct_error
  ∧ ZIMFile_iter (opened (take 24 two_articles ++ pack_uint 4 3 ++ drop 28 two_articles))
    = ([(text "A/a", text "First", 0); (text "A/b", text "Second", 1)],
       Raise struct_error).
Proof.
  assert (Hk : 0 ≤ 2 < articleCount
                         (header_fields
                            (opened (take 24 two_articles ++ pack_uint 4 3
                                     ++ drop 28 two_articles))))
    by (vm_compute; split; [discriminate | reflexivity]).
  assert (Hraise : read_directory_entry_by_index
                     (opened (take 24 two_articles ++ pack_uint 4 3
                              ++ drop 28 two_articles)) 2
                   = Raise struct_error) by (vm_compute; reflexivity).
  split; [exact Hk | ]. split; [exact Hraise | ].
  refine (ZIMFile_iter_stops_at_error _ two_articles_entries 2 struct_error Hk _ Hraise).
  repeat (constructor; [vm_compute; reflexivity | ]). constructor.
Defined.

(** ** The function [binary_search] *)

Section BinarySearching.

Context {A : Type} `{EqDecision A}.
Variable lt : A → A → bool.





End BinarySearching.


(** ** The main page *)




(** ** The ranker on an empty corpus, on an empty query, on repeated
    documents *)

Section RankingEdges.

Context {F : Type} `{PyFloat F}.
Variable hash : str → Z.
Variable str_lower : str → str.

(** BM25.calculate_scores on an empty corpus divides by [len(corpus)], which
    is 0: ZeroDivisionError, whatever the query. *)
Lemma calculate_scores_empty_corpus (self : BM25) (query : list str) :
  calculate_scores hash str_lower self query [] = Raise ZeroDivisionError.
Proof. reflexivity. Qed.

Lemma for_each_document_score_nil (self : BM25) (num_words : gmap Z Z) (avg_doc_len : F)
    (corpus_size : Z) (documents : list str) :
  for_each (document_score hash self num_words avg_doc_len corpus_size []) documents
  = Ok (replicate (length documents) (of_int 0)).
Proof.
  induction documents as [ | document documents IH]; [reflexivity | ].
  cbn [for_each length replicate]. rewrite IH. reflexivity.
Qed.

(** BM25.calculate_scores with an empty query on a corpus that is not empty:
    one score per document, each the 0 that [total_score] starts from. *)
Theorem calculate_scores_empty_query (self : BM25) (corpus : list str) :
  corpus ≠ [] →
  calculate_scores hash str_lower self [] corpus
  = Ok (replicate (length corpus) (of_int 0)).
Proof.
  intros Hne. rewrite calculate_scores_unfold by exact Hne.
  cbn [fmap list_fmap query_terms_of].
  rewrite for_each_document_score_nil, length_fmap. reflexivity.
Qed.

Lemma dict_of_pairs_lookup_None (pairs : list (Z * Z)) (key : Z) :
  key ∉ pairs.*1 → dict_of_pairs pairs !! key = None.
Proof.
  unfold dict_of_pairs. induction pairs as [ | [k v] pairs IH] using rev_ind; intros Hkey.
  - apply lookup_empty.
  - rewrite fmap_app, not_elem_of_app in Hkey. destruct Hkey as [Hkey Hk].
    rewrite foldl_app. cbn [foldl fst snd].
    rewrite lookup_insert_ne; [apply IH; exact Hkey | ].
    intros ->. apply Hk. cbn. apply list_elem_of_here.
Qed.

(** The dict [num_words] has one item per distinct document. *)
Lemma num_words_of_distinct (corpus : list str) :
  (∀ d1 d2, d1 ∈ corpus → d2 ∈ corpus → hash d1 = hash d2 → d1 = d2) →
  num_words_of hash corpus
  = list_to_map ((fun doc => (hash doc, str_count doc [0x20] + 1))
                 <$> remove_dups corpus)
  ∧ NoDup ((fun doc => (hash doc, str_count doc [0x20] + 1)) <$> remove_dups corpus).*1.
Proof.
  intros Hinj.
  assert (Hkeys : NoDup ((fun doc => (hash doc, str_count doc [0x20] + 1))
                         <$> remove_dups corpus).*1).
  { rewrite <- list_fmap_compose. apply NoDup_fmap_2_strong; [ | apply NoDup_remove_dups].
    intros d1 d2 H1 H2. apply Hinj; apply elem_of_remove_dups; assumption. }
  split; [ | exact Hkeys]. apply map_eq. intros key. unfold num_words_of.
  destruct (decide (key ∈ hash <$> corpus)) as [Hin | Hout].
  - apply list_elem_of_fmap in Hin as (document & -> & Hin).
    rewrite (dict_of_pairs_lookup hash (fun doc => str_count doc [0x20] + 1))
      by assumption.
    symmetry. apply elem_of_list_to_map_1; [exact Hkeys | ].
    apply list_elem_of_fmap. exists document. split; [reflexivity | ].
    apply elem_of_remove_dups. exact Hin.
  - rewrite dict_of_pairs_lookup_None by (rewrite <- list_fmap_compose; exact Hout).
    symmetry. apply not_elem_of_list_to_map_1. rewrite <- list_fmap_compose.
    intros Hin. apply Hout. apply list_elem_of_fmap in Hin as (document & -> & Hin).
    apply list_elem_of_fmap. exists document. split; [reflexivity | ].
    apply elem_of_remove_dups. exact Hin.
Qed.

Lemma sum_values_distinct (corpus : list str) :
  (∀ d1 d2, d1 ∈ corpus → d2 ∈ corpus → hash d1 = hash d2 → d1 = d2) →
  sum_values (num_words_of hash corpus)
  = foldr Z.add 0 ((fun doc => str_count doc [0x20] + 1) <$> remove_dups corpus).
Proof.
  intros Hinj. destruct (num_words_of_distinct corpus Hinj) as [-> Hkeys].
  unfold sum_values. rewrite map_fold_foldr.
  transitivity (foldr (uncurry (fun (_ : Z) v acc => v + acc)) 0
                  ((fun doc => (hash doc, str_count doc [0x20] + 1))
                   <$> remove_dups corpus)).
  - apply (foldr_permutation (=)).
    + intros x a1 a2 ->. reflexivity.
    + intros j1 [k1' v1] j2 [k2' v2] acc _ _ _. cbn. lia.
    + exact (map_to_list_to_map _ Hkeys).
  - clear Hkeys.
    induction (remove_dups corpus) as [ | document documents IH]; [reflexivity | ].
    cbn [fmap list_fmap foldr uncurry]. cbn [fmap list_fmap] in IH. rewrite IH.
    reflexivity.
Qed.

(** BM25.calculate_scores on a corpus that is not empty and whose lowercased
    documents have hashes of their own: [avg_doc_len] is the number of words
    of the distinct lowercased documents, each counted once however often it
    is in the corpus, divided by the number of all the documents. *)
Theorem calculate_scores_avg_doc_len (self : BM25) (query corpus : list str) :
  corpus ≠ [] →
  (∀ d1 d2, d1 ∈ str_lower <$> corpus → d2 ∈ str_lower <$> corpus →
            hash d1 = hash d2 → d1 = d2) →
  calculate_scores hash str_lower self query corpus
  = for_each
      (document_score hash self
         (num_words_of hash (str_lower <$> corpus))
         (int_quotient
            (foldr Z.add 0 ((fun doc => str_count doc [0x20] + 1)
                            <$> remove_dups (str_lower <$> corpus)))
            (Z.of_nat (length corpus)))
         (Z.of_nat (length corpus))
         (query_terms_of (str_lower <$> query) (str_lower <$> corpus)))
      (str_lower <$> corpus).
Proof.
  intros Hne Hinj. rewrite calculate_scores_unfold by exact Hne.
  rewrite sum_values_distinct by exact Hinj. reflexivity.
Qed.

End RankingEdges.

Lemma calculate_scores_empty_query_witness :
  example_corpus ≠ []
  ∧ calculate_scores string_hash ascii_lower BM25_default [] example_corpus
    = Ok [float_of_int 0; float_of_int 0; float_of_int 0].
Proof.
  assert (Hne : example_corpus ≠ []) by discriminate.
  split; [exact Hne | ].
  exact (calculate_scores_empty_query string_hash ascii_lower BM25_default
           example_corpus Hne).
Defined.

Lemma example_corpus_repeated_hashes (d1 d2 : str) :
  d1 ∈ ascii_lower <$> example_corpus_repeated →
  d2 ∈ ascii_lower <$> example_corpus_repeated →
  string_hash d1 = string_hash d2 → d1 = d2.
Proof.
  intros H1 H2 Hh.
  repeat (apply elem_of_cons in H1 as [-> | H1]);
    [ | | | inversion H1];
    (repeat (apply elem_of_cons in H2 as [-> | H2]);
     [ | | | inversion H2]);
    first [reflexivity | vm_compute in Hh; discriminate Hh].
Defined.

Lemma calculate_scores_avg_doc_len_witness :
  foldr Z.add 0 ((fun doc => str_count doc [0x20] + 1)
                 <$> remove_dups (ascii_lower <$> example_corpus_repeated)) = 3
  ∧ calculate_scores string_hash ascii_lower BM25_default example_query
      example_corpus_repeated
    = for_each
        (document_score string_hash BM25_default
           (num_words_of string_hash (ascii_lower <$> example_corpus_repeated))
           (int_quotient
              (foldr Z.add 0 ((fun doc => str_count doc [0x20] + 1)
                              <$> remove_dups (ascii_lower <$> example_corpus_repeated)))
              (Z.of_nat (length example_corpus_repeated)))
           (Z.of_nat (length example_corpus_repeated))
           (query_terms_of (ascii_lower <$> example_query)
              (ascii_lower <$> example_corpus_repeated)))
        (ascii_lower <$> example_corpus_repeated).
Proof.
  split; [vm_compute; reflexivity | ].
  apply (calculate_scores_avg_doc_len string_hash ascii_lower BM25_default
           example_query example_corpus_repeated);
    [discriminate | exact example_corpus_repeated_hashes].
Defined.

(** ** Clusters cut short *)

Lemma read_more_offsets_enough (n : nat) (s : stream) :
  0 ≤ pos s → (4 * n ≤ length (remaining s))%nat →
  ∃ offsets, read_more_offsets n s = Ok offsets ∧ length offsets = n.
Proof.
  revert s. induction n as [ | n IH]; intros s Hpos Hlen.
  - exists []. split; reflexivity.
  - cbn [read_more_offsets].
    pose proof (read_fst s 4 ltac:(lia)) as Hfst.
    destruct (read_snd s 4 Hpos ltac:(lia)) as (Hpos' & _ & Hrem).
    destruct (read s 4) as [b4 s']. cbn [fst snd] in *.
    unfold unpack_uint. rewrite decide_True by (rewrite Hfst, length_take; lia).
    cbn [mbind outcome_bind].
    destruct (IH s' Hpos') as (offsets & -> & Hoffsets);
      [rewrite Hrem, length_drop; lia | ].
    cbn [mbind outcome_bind]. eexists. split; [reflexivity | ].
    cbn [length]. rewrite Hoffsets. reflexivity.
Qed.

Lemma read_more_offsets_short (n : nat) (s : stream) :
  0 ≤ pos s → (length (remaining s) < 4 * n)%nat →
  read_more_offsets n s = Raise struct_error.
Proof.
  revert s. induction n as [ | n IH]; intros s Hpos Hlen; [lia | ].
  cbn [read_more_offsets].
  pose proof (read_fst s 4 ltac:(lia)) as Hfst.
  destruct (read_snd s 4 Hpos ltac:(lia)) as (Hpos' & _ & Hrem).
  destruct (read s 4) as [b4 s']. cbn [fst snd] in *.
  unfold unpack_uint.
  destruct (decide (length b4 = 4%nat)) as [H4 | H4]; [ | reflexivity].
  cbn [mbind outcome_bind].
  rewrite Hfst, length_take in H4.
  rewrite (IH s' Hpos') by (rewrite Hrem, length_drop; lia).
  reflexivity.
Qed.

Section ClustersCutShort.

Variable lzma_decompress : list byte → outcome (list byte).

(** ClusterData.__init__ checks one thing about the body of the cluster (the
    bytes after the compressionType byte, decompressed when the byte is 4):
    that it is as long as the offsets it reads. With [offset0] the first
    unsigned 32-bit integer of the body, it reads int(offset0 / 4) offsets,
    and one when that is 0: it keeps them when the body has that many, and
    raises struct.error when the body ends before. *)
Theorem ClusterData_init_offsets (encoding : codec) (before rest body : list byte)
    (t : byte) :
  cluster_body_of lzma_decompress t rest = Ok body →
  ((4 ≤ length body)%nat ∧ 4 * (int_from_le (take 4 body) / 4) ≤ Z.of_nat (length body) →
   ∃ cluster_data,
     ClusterData_init lzma_decompress (before ++ t :: rest) (Z.of_nat (length before))
       encoding = Ok cluster_data
     ∧ _offsets cluster_data !! 0%nat = Some (int_from_le (take 4 body))
     ∧ Z.of_nat (length (_offsets cluster_data))
       = Z.max 1 (int_from_le (take 4 body) / 4))
  ∧ ((length body < 4)%nat ∨ Z.of_nat (length body) < 4 * (int_from_le (take 4 body) / 4) →
     ClusterData_init lzma_decompress (before ++ t :: rest) (Z.of_nat (length before))
       encoding = Raise struct_error).
Proof.
  intros Hbody. rewrite ClusterData_init_at. cbv zeta.
  destruct (_decompress_Ok lzma_decompress before rest body t Hbody) as (buf & Hbuf).
  rewrite Hbuf. cbn [mbind outcome_bind].
  destruct (_source_buffer_body lzma_decompress before rest body t [] buf Hbuf Hbody)
    as (s & Hs & Hpos & Hrem).
  unfold _read_offsets. rewrite Hs. cbn [mbind outcome_bind].
  pose proof (read_fst s 4 ltac:(lia)) as Hfst.
  destruct (read_snd s 4 Hpos ltac:(lia)) as (Hpos' & _ & Hrem').
  destruct (read s 4) as [b4 s']. cbn [fst snd] in *.
  rewrite Hrem in Hfst, Hrem'. change (Z.to_nat 4) with 4%nat in Hfst, Hrem'.
  subst b4. unfold unpack_uint.
  pose proof (int_from_le_nonneg (take 4 body)) as Hnonneg.
  assert (Hquot : 0 ≤ int_from_le (take 4 body) / 4) by (apply Z.div_pos; lia).
  split.
  - intros [H4 Htable].
    rewrite decide_True by (rewrite length_take; lia). cbn [mbind outcome_bind].
    destruct (read_more_offsets_enough
                (Z.to_nat (int_from_le (take 4 body) / 4 - 1)) s' Hpos')
      as (offsets & -> & Hoffsets); [rewrite Hrem', length_drop; lia | ].
    cbn [mbind outcome_bind]. eexists. split; [reflexivity | ].
    cbn [_offsets]. split; [reflexivity | ]. cbn [length]. lia.
  - intros Hshort.
    destruct (decide (length (take 4 body) = 4%nat)) as [H4 | H4]; [ | reflexivity].
    cbn [mbind outcome_bind]. rewrite length_take in H4.
    rewrite read_more_offsets_short; [reflexivity | exact Hpos' | ].
    rewrite Hrem', length_drop. lia.
Qed.

End ClustersCutShort.

Lemma ClusterData_init_offsets_witness :
  cluster_body_of no_lzma_streams x01 (pack_uint 4 12 ++ [x2a; x2a; x2a; x2a; x2a]) 
  = Ok (pack_uint 4 12 ++ [x2a; x2a; x2a; x2a; x2a])
  ∧ ClusterData_init no_lzma_streams
      ([x5a] ++ x01 :: pack_uint 4 12 ++ [x2a; x2a; x2a; x2a; x2a]) 1 codec_utf_8
    = Raise struct_error.
Proof.
  split; [reflexivity | ].
  apply (proj2 (ClusterData_init_offsets no_lzma_streams codec_utf_8 [x5a]
                  (pack_uint 4 12 ++ [x2a; x2a; x2a; x2a; x2a])
                  (pack_uint 4 12 ++ [x2a; x2a; x2a; x2a; x2a]) x01 eq_refl)).
  right. vm_compute. reflexivity.
Defined.

(** ** What a request asks for *)

Lemma str_split_part (sep : Z) (part : str) : sep ∉ part → str_split sep part = [part].
Proof.
  induction part as [ | c part IH]; intros Hsep; [reflexivity | ].
  apply not_elem_of_cons in Hsep as [Hc Hsep]. cbn [str_split].
  rewrite decide_False by (intros ->; apply Hc; reflexivity).
  rewrite (IH Hsep). reflexivity.
Qed.

Lemma str_split_app (sep : Z) (part rest : str) :
  sep ∉ part → str_split sep (part ++ sep :: rest) = part :: str_split sep rest.
Proof.
  induction part as [ | c part IH]; intros Hsep.
  - cbn [app str_split]. rewrite decide_True by reflexivity. reflexivity.
  - apply not_elem_of_cons in Hsep as [Hc Hsep]. cbn [app str_split].
    rewrite decide_False by (intros ->; apply Hc; reflexivity).
    rewrite (IH Hsep). reflexivity.
Qed.

Lemma str_join_split (sep : Z) (s : str) : str_join [sep] (str_split sep s) = s.
Proof.
  induction s as [ | c s IH]; [reflexivity | ]. cbn [str_split].
  destruct (str_split sep s) as [ | part parts] eqn:Hsplit.
  - destruct s; cbn [str_split] in Hsplit; [discriminate | ].
    destruct (decide _); [discriminate | ]. destruct (str_split sep _); discriminate.
  - destruct (decide (c = sep)) as [-> | Hc].
    + cbn [str_join app fmap list_fmap concat] in IH |- *. rewrite IH. reflexivity.
    + cbn [str_join app fmap list_fmap concat] in IH |- *. rewrite IH. reflexivity.
Qed.

(** on_get: for a location "/namespace/url" whose namespace is one character
    or none, the article asked for is the one with this namespace and with
    the url that is all the rest of the location, slashes included. *)
Theorem requested_namespace_url (namespace_ url_ : str) :
  (length namespace_ ≤ 1)%nat → 0x2F ∉ namespace_ →
  requested ([0x2F] ++ namespace_ ++ [0x2F] ++ url_) = Ok (by_url namespace_ url_).
Proof.
  intros Hlen Hslash. unfold requested.
  rewrite bool_decide_eq_false_2.
  - cbn [app str_split]. rewrite decide_True by reflexivity.
    rewrite (str_split_app 47 namespace_ url_ Hslash).
    destruct (Z.ltb_spec 1 (Z.of_nat (length namespace_))) as [ | _]; [lia | ].
    rewrite str_join_split. reflexivity.
  - intros Hin. unfold main_page_locations in Hin.
    destruct namespace_ as [ | c [ | c' namespace_]]; [ | | cbn in Hlen; lia];
      repeat (apply elem_of_cons in Hin as [Heq | Hin];
              [vm_compute in Heq; discriminate Heq | ]);
      inversion Hin.
Qed.

(** on_get: for a location that is not one of the main page and whose first
    part, up to the second "/" or to the end, has more than one character,
    the article asked for is the one in the namespace "A" whose url is this
    first part; what follows it in the location is not used. *)
Theorem requested_page (name rest : str) :
  (1 < length name)%nat → 0x2F ∉ name →
  [0x2F] ++ name ++ rest ∉ main_page_locations →
  rest = [] ∨ (∃ rest', rest = 0x2F :: rest') →
  requested ([0x2F] ++ name ++ rest) = Ok (by_url [0x41] name).
Proof.
  intros Hlen Hslash Hother Hrest. unfold requested.
  rewrite bool_decide_eq_false_2 by exact Hother.
  cbn [app str_split]. rewrite decide_True by reflexivity.
  assert (Hsplit : ∃ parts, str_split 47 (name ++ rest) = name :: parts).
  { destruct Hrest as [-> | (rest' & ->)].
    - rewrite app_nil_r, (str_split_part 47 name Hslash). eauto.
    - rewrite (str_split_app 47 name rest' Hslash). eauto. }
  destruct Hsplit as (parts & ->).
  destruct (Z.ltb_spec 1 (Z.of_nat (length name))) as [_ | ]; [reflexivity | lia].
Qed.

Lemma requested_namespace_url_witness :
  (length (text "I") ≤ 1)%nat
  ∧ requested (text "/I/m/logo.png") = Ok (by_url (text "I") (text "m/logo.png")).
Proof.
  split; [vm_compute; lia | ].
  refine (requested_namespace_url (text "I") (text "m/logo.png") _ _).
  - vm_compute. lia.
  - intros Hin. vm_compute in Hin.
    apply elem_of_cons in Hin as [Heq | Hin]; [discriminate | inversion Hin].
Defined.

Lemma requested_page_witness :
  (1 < length (text "Paris.html"))%nat
  ∧ requested (text "/Paris.html/history") = Ok (by_url (text "A") (text "Paris.html")).
Proof.
  split; [vm_compute; lia | ].
  refine (requested_page (text "Paris.html") (text "/history") _ _ _ _).
  - vm_compute. lia.
  - intros Hin. vm_compute in Hin.
    repeat (apply elem_of_cons in Hin as [Heq | Hin]; [discriminate | ]).
    inversion Hin.
  - intros Hin. vm_compute in Hin.
    repeat (apply elem_of_cons in Hin as [Heq | Hin]; [discriminate | ]).
    inversion Hin.
  - right. eexists. reflexivity.
Defined.

(** ** Lookup by url: the linear scan, and keys that are absent *)

(** ZIMFile._get_entry_by_url with linear=True, on an archive whose
    directory entries can all be read: the entry of lowest index whose url
    and namespace are the ones asked for, with its index, and (None, None)
    when no entry has them. The directory need not be sorted. *)
Theorem linear_search_first_match (self : ZIMFile) (entries : list Entry)
    (namespace_ url_ : str) :
  read_directory self = Ok entries →
  _get_entry_by_url self namespace_ url_ true
  = match list_find (fun entry => url entry = url_ ∧ namespace entry = namespace_)
            entries with
    | Some (k, entry) => Ok (Some entry, Some (Z.of_nat k))
    | None => Ok (None, None)
    end.
Proof.
  intros Hdir. unfold _get_entry_by_url.
  pose proof (directory_length self entries Hdir) as Hlen.
  assert (Hseq : seqZ 0 (articleCount (header_fields self))
                 = seqZ 0 (Z.of_nat (length entries)))
    by (unfold seqZ; do 2 f_equal; lia).
  rewrite Hseq, (linear_search_scan self entries Hdir _ _ 0 [] entries) by reflexivity.
  destruct (list_find _ entries) as [[k entry] | ]; reflexivity.
Qed.

Lemma linear_search_first_match_witness :
  read_directory (opened two_articles) = Ok two_articles_entries
  ∧ _get_entry_by_url (opened two_articles) (text "A") (text "b") true
    = Ok (Some (mkEntry 0 0 (text "A") 0 (ArticleFields 0 1) (text "b") (text "Second")
                  (Some 1)), Some 1).
Proof.
  split; [exact (proj1 two_articles_directory) | ].
  exact (linear_search_first_match (opened two_articles) two_articles_entries
           (text "A") (text "b") (proj1 two_articles_directory)).
Defined.

Lemma _get_entry_by_url_absent (self : ZIMFile) (entries : list Entry)
    (namespace_ url_ : str) (j0 : nat) (entry0 : Entry) :
  read_directory self = Ok entries →
  StronglySorted (fun a b => str_ltb a b = true) (entry_key <$> entries) →
  (∀ entry, entry ∈ entries → entry_key entry ≠ full_url namespace_ url_) →
  entries !! j0 = Some entry0 →
  str_ltb (entry_key entry0) (full_url namespace_ url_) = false →
  _get_entry_by_url self namespace_ url_ false = Ok (None, None).
Proof.
  intros Hdir Hsorted Habsent Hentry0 Hge.
  pose proof (binary_search_loop_sorted self entries Hdir Hsorted
                (full_url namespace_ url_)
                (Z.to_nat (articleCount (header_fields self) - 0 + 1))
                0 (articleCount (header_fields self)) 0 j0 entry0
                (search_bounds_start self entries Hdir _) ltac:(lia) Hentry0 Hge)
    as Hloop.
  unfold _get_entry_by_url, len.
  destruct (binary_search_loop self (full_url namespace_ url_) _ 0 _ 0) as [probes r].
  destruct Hloop as [_ [(i' & entry' & -> & Hentry' & Hkey') | [(m & ->) _]]].
  - exfalso. apply (Habsent entry'); [ | exact Hkey'].
    eapply list_elem_of_lookup_2. exact Hentry'.
  - reflexivity.
Qed.

(** ZIMFile.get_article_by_url on an archive whose directory is strictly
    increasing by full url, for a key that no entry has and that is not
    above every key of the directory: None. *)
Theorem get_article_by_url_absent (lzma_decompress : list byte → outcome (list byte))
    (depth : nat) (self : ZIMFile) (entries : list Entry) (namespace_ url_ : str)
    (follow_redirect : bool) (j0 : nat) (entry0 : Entry) :
  read_directory self = Ok entries →
  StronglySorted (fun a b => str_ltb a b = true) (entry_key <$> entries) →
  (∀ entry, entry ∈ entries → entry_key entry ≠ full_url namespace_ url_) →
  entries !! j0 = Some entry0 →
  str_ltb (entry_key entry0) (full_url namespace_ url_) = false →
  get_article_by_url lzma_decompress depth self namespace_ url_ follow_redirect = Ok None.
Proof.
  intros Hdir Hsorted Habsent Hentry0 Hge. unfold get_article_by_url.
  rewrite (_get_entry_by_url_absent self entries namespace_ url_ j0 entry0)
    by assumption.
  reflexivity.
Qed.

Lemma get_article_by_url_absent_witness :
  read_directory (opened two_articles) = Ok two_articles_entries
  ∧ str_ltb (text "A/b") (text "A/aa") = false
  ∧ get_article_by_url no_lzma_streams 10 (opened two_articles) (text "A") (text "aa") true
    = Ok None.
Proof.
  split; [exact (proj1 two_articles_directory) | ].
  split; [vm_compute; reflexivity | ].
  refine (get_article_by_url_absent no_lzma_streams 10 (opened two_articles)
            two_articles_entries (text "A") (text "aa") true 1%nat _
            (proj1 two_articles_directory) (proj2 two_articles_directory) _ eq_refl _).
  - intros entry Hin.
    repeat (apply elem_of_cons in Hin as [-> | Hin]; [vm_compute; discriminate | ]).
    inversion Hin.
  - vm_compute. reflexivity.
Defined.
